(** * ALLP: Actionable Log Lines Protocol

    A shallow embedding of the interpretation pipeline of the repository:
    the beads adapter ([src/adapters/beads.ts]), the adapter registry
    ([src/adapters/index.ts]), the query interpreter
    ([src/interpreter.ts]) and the three methods of the panel that call
    them ([src/renderer/panel.ts]), over the types of [src/protocol.ts].

    Modelling conventions.
    - A JavaScript string is a [string]; one [ascii] stands for one UTF-16
      code unit below [0x100], so the development covers Latin-1 text.
      Character classes ([\s], [\d], [\w], line terminators) and
      [toLowerCase] are those of ECMAScript restricted to that range.
    - Objects that closures and callers share (the [source] object of a
      line and its [context]) live in a store indexed by locations; a
      location is never dangling because the store is a total function.
    - [async] functions are awaited to completion by their callers, so a
      promise is modelled by the computation that settles it: a state
      and exception monad [M].  A rejected promise is a thrown value, and
      a thrown value is any value: an object or primitive, seen through
      the properties [stderr] and [message] that the code reads, or
      [null] or [undefined], from which no property can be read.
    - The outside world (the [bd] executable, the fallback handler) answers
      as a function of the history of external calls so far; every such
      call is recorded in the [trace] of the state.  The fallback handler
      is given two strings, so it has no access to the store.  It is code
      of the host and may reject with any value; the promisified [exec]
      rejects with an [Error] object.
    - The values of a context object are strings: [BeadsContext] declares
      them so, and [formatContextForClaude] casts every context to a
      record of strings.  A context that holds a value of another type
      (a symbol, say, which no template literal can print) is outside the
      development.
    - The WebView, the file watcher and the adapter generator are not
      part of the development. *)

From Stdlib Require Import String Ascii List Bool Arith NArith Lia.
Import ListNotations.
Open Scope string_scope.
Open Scope list_scope.

Set Implicit Arguments.

(* ================================================================== *)
(** * JavaScript strings *)
(* ================================================================== *)

Module JsString.

Definition code (c : ascii) : N := N_of_ascii c.

Definition in_range (lo hi : N) (c : ascii) : bool :=
  (N.leb lo (code c) && N.leb (code c) hi)%bool.

(** [\d]: the decimal digits. *)
Definition is_digit (c : ascii) : bool := in_range 48 57 c.

(** [\w]: [[A-Za-z0-9_]]. *)
Definition is_word (c : ascii) : bool :=
  in_range 65 90 c || in_range 97 122 c || is_digit c || N.eqb (code c) 95.

(** [\s], which is also what [trim] strips: TAB, LF, VT, FF, CR, SP and
    NBSP are the white space and line terminator code units below 0x100. *)
Definition is_space (c : ascii) : bool :=
  in_range 9 13 c || N.eqb (code c) 32 || N.eqb (code c) 160.

(** The code units that [.] refuses (without the [s] flag). *)
Definition is_line_terminator (c : ascii) : bool :=
  N.eqb (code c) 10 || N.eqb (code c) 13.

(** Simple case mapping of one code unit: [A-Z] and the Latin-1 capitals
    [U+00C0..U+00DE] except the multiplication sign [U+00D7]. *)
Definition lower_char (c : ascii) : ascii :=
  if in_range 65 90 c || (in_range 192 222 c && negb (N.eqb (code c) 215))
  then ascii_of_N (code c + 32)
  else c.

Fixpoint toLowerCase (s : string) : string :=
  match s with
  | EmptyString => EmptyString
  | String c s' => String (lower_char c) (toLowerCase s')
  end.

Fixpoint trimStart (s : string) : string :=
  match s with
  | EmptyString => EmptyString
  | String c s' => if is_space c then trimStart s' else s
  end.

Fixpoint trimEnd (s : string) : string :=
  match s with
  | EmptyString => EmptyString
  | String c s' =>
      match trimEnd s' with
      | EmptyString => if is_space c then EmptyString else String c EmptyString
      | t => String c t
      end
  end.

Definition trim (s : string) : string := trimEnd (trimStart s).

(** [s.includes(c)] for a one-character needle. *)
Fixpoint includes (c : ascii) (s : string) : bool :=
  match s with
  | EmptyString => false
  | String d s' => Ascii.eqb d c || includes c s'
  end.

(** [s.split(sep)] for a one-character separator: never empty. *)
Fixpoint split (sep : ascii) (s : string) : list string :=
  match s with
  | EmptyString => [EmptyString]
  | String c s' =>
      if Ascii.eqb c sep then EmptyString :: split sep s'
      else match split sep s' with
           | [] => [String c EmptyString]
           | field :: fields => String c field :: fields
           end
  end.

(** [parts.join(sep)]. *)
Fixpoint join (sep : string) (parts : list string) : string :=
  match parts with
  | [] => EmptyString
  | [p] => p
  | p :: rest => p ++ sep ++ join sep rest
  end.

(** [s.split(/\s+/)]: the separators are the maximal runs of white
    space.  [in_run] tells that the scan is inside such a run, whose
    left neighbour has been emitted already; [cur] is the piece being
    collected. *)
Fixpoint split_ws_from (in_run : bool) (cur : string) (s : string)
  : list string :=
  match s with
  | EmptyString => [cur]
  | String c s' =>
      if is_space c then
        if in_run then split_ws_from true cur s'
        else cur :: split_ws_from true EmptyString s'
      else split_ws_from false (cur ++ String c EmptyString) s'
  end.

Definition split_ws (s : string) : list string :=
  split_ws_from false EmptyString s.

(** Anchored match of a regular expression that is a plain sequence of
    character classes, such as [/^\d{4}-\d{2}-\d{2}T/]. *)
Fixpoint match_classes (classes : list (ascii -> bool)) (s : string) : bool :=
  match classes with
  | [] => true
  | cl :: classes' =>
      match s with
      | EmptyString => false
      | String c s' => cl c && match_classes classes' s'
      end
  end.

(** Longest prefix of [s] inside a character class, and what follows. *)
Fixpoint span (cl : ascii -> bool) (s : string) : string * string :=
  match s with
  | EmptyString => (EmptyString, EmptyString)
  | String c s' =>
      if cl c then let (pre, post) := span cl s' in (String c pre, post)
      else (EmptyString, s)
  end.

Fixpoint all (cl : ascii -> bool) (s : string) : bool :=
  match s with
  | EmptyString => true
  | String c s' => cl c && all cl s'
  end.

(** JavaScript truthiness of a string, and of a possibly [undefined] one. *)
Definition truthy (s : string) : bool := negb (String.eqb s "").

Definition truthy_opt (v : option string) : bool :=
  match v with Some s => truthy s | None => false end.

(** [a || b] on strings. *)
Definition or_else (a b : string) : string := if truthy a then a else b.

(** [${v}] of a possibly [undefined] value in a template literal. *)
Definition interpolate (v : option string) : string :=
  match v with Some s => s | None => "undefined" end.

(** [a || b] where both may be [undefined], and where [b] is a string. *)
Definition or_opt (a b : option string) : option string :=
  if truthy_opt a then a else b.

Definition or_default (a : option string) (b : string) : string :=
  if truthy_opt a then interpolate a else b.

(** [v === s] for a possibly [undefined] [v]. *)
Definition strict_eq (v : option string) (s : string) : bool :=
  match v with Some s' => String.eqb s' s | None => false end.

(** What follows the prefix [p] in [s], when [s] starts with [p]. *)
Fixpoint strip_prefix (p s : string) : option string :=
  match p with
  | EmptyString => Some s
  | String c p' =>
      match s with
      | EmptyString => None
      | String d s' => if Ascii.eqb d c then strip_prefix p' s' else None
      end
  end.

(** [s.startsWith(p)], which is also a match of [/^p/] for a literal [p]. *)
Definition startsWith (p s : string) : bool :=
  match strip_prefix p s with Some _ => true | None => false end.

(** The last code unit of [s] is [c]: a match of [/c$/]. *)
Fixpoint ends_with_char (c : ascii) (s : string) : bool :=
  match s with
  | EmptyString => false
  | String d EmptyString => Ascii.eqb d c
  | String _ s' => ends_with_char c s'
  end.

End JsString.

Import JsString.


(* ================================================================== *)
(** * JavaScript [Map]: insertion-ordered, one entry per key *)
(* ================================================================== *)

Module JsMap.
Section WithValues.

Variable V : Type.

(** The entries in iteration order. *)
Definition t : Type := list (string * V).

Definition empty : t := [].

Fixpoint has (m : t) (k : string) : bool :=
  match m with
  | [] => false
  | (k', _) :: m' => String.eqb k' k || has m' k
  end.

Fixpoint get (m : t) (k : string) : option V :=
  match m with
  | [] => None
  | (k', v) :: m' => if String.eqb k' k then Some v else get m' k
  end.

(** [m.set(k, v)]: an existing key keeps its place and takes the new
    value, a new key goes to the end. *)
Fixpoint set (m : t) (k : string) (v : V) : t :=
  match m with
  | [] => [(k, v)]
  | (k', v') :: m' =>
      if String.eqb k' k then (k', v) :: m' else (k', v') :: set m' k v
  end.

Definition keys (m : t) : list string := map fst m.

Definition values (m : t) : list V := map snd m.

End WithValues.
End JsMap.

(* ================================================================== *)
(** * The protocol types ([src/protocol.ts]) and the runtime *)
(* ================================================================== *)

(** A reference to an object of the store. *)
Definition loc : Type := nat.

(** A thrown value (or rejection reason) other than [null] and
    [undefined], seen through the two properties the code reads from it,
    each a string or [undefined]; a property that the value does not
    have, as with a primitive, is [undefined]. *)
Record JsError : Type := {
  err_stderr : option string;
  err_message : option string
}.

Inductive Nullish : Type := JsNull | JsUndefined.

(** What a [throw] statement or a rejected promise can carry: any value,
    [null] and [undefined] included. *)
Inductive Thrown : Type :=
| ThrownObject (e : JsError)
| ThrownNullish (k : Nullish).

(** External calls, in the order they were made. *)
Inductive Event : Type :=
| EvExec (command : string)
| EvFallback (context query : string).

(** The outcome of an external call: the promise fulfils, or it rejects
    with a reason of type [R]. *)
Inductive Settled (R : Type) : Type :=
| Fulfilled (value : string)
| Rejected (reason : R).

Arguments Fulfilled {R} value.
Arguments Rejected {R} reason.

(** [ClaudeFallbackConfig] of [src/interpreter.ts]; the handler answers
    from the history of external calls, the context string and the query.
    It is a function of the host, which may throw or reject with any
    value. *)
Record ClaudeFallbackConfig : Type := {
  enabled : bool;
  fallback_handler :
    option (list Event -> string -> string -> Settled Thrown)
}.

(** The object [line.source]; [src_context] refers to the context object. *)
Record SourceObj : Type := {
  src_type : string;
  src_id : string;
  src_context : loc
}.

(** A context object: its own enumerable properties, as [Object.entries]
    lists them. *)
Definition ContextObj : Type := list (string * string).

(** The process: the store of shared objects, the module variable
    [fallbackConfig], the history of external calls, and how the child
    process [bd] answers a command line after a given history.  The
    promisified [exec] of Node rejects with the [Error] object that
    [exec] builds, never with [null] or [undefined]. *)
Record State : Type := {
  sources : loc -> SourceObj;
  contexts : loc -> ContextObj;
  next_loc : loc;
  fallbackConfig : ClaudeFallbackConfig;
  trace : list Event;
  child_process : list Event -> string -> Settled JsError
}.

(** How a computation completes. *)
Inductive Completion (A : Type) : Type :=
| Normal (a : A)
| Throw (e : Thrown).

Arguments Normal {A} a.
Arguments Throw {A} e.

Definition M (A : Type) : Type := State -> Completion A * State.

Definition ret {A} (a : A) : M A := fun st => (Normal a, st).

Definition bind {A B} (c : M A) (k : A -> M B) : M B :=
  fun st =>
    match c st with
    | (Normal a, st') => k a st'
    | (Throw e, st') => (Throw e, st')
    end.

(** [throw e] for an error object [e]. *)
Definition throw {A} (e : JsError) : M A :=
  fun st => (Throw (ThrownObject e), st).

(** [try { c } catch (error) { h error }]. *)
Definition try_catch {A} (c : M A) (h : Thrown -> M A) : M A :=
  fun st =>
    match c st with
    | (Normal a, st') => (Normal a, st')
    | (Throw e, st') => h e st'
    end.

Definition gets {A} (f : State -> A) : M A := fun st => (Normal (f st), st).

Definition modify (f : State -> State) : M unit := fun st => (Normal tt, f st).

Declare Scope js_scope.
Delimit Scope js_scope with js.
Notation "x <- c ;; k" := (bind c (fun x => k))
  (at level 61, c at next level, right associativity) : js_scope.
Open Scope js_scope.

Definition TypeError (msg : string) : JsError :=
  {| err_stderr := None; err_message := Some msg |}.

Definition nullish_name (k : Nullish) : string :=
  match k with JsNull => "null" | JsUndefined => "undefined" end.

(** The first read [err.property] in a catch block, where [err] is the
    caught value under a cast (which does nothing at run time): it gives
    access to the properties of the value, and throws when the value is
    [null] or [undefined]. *)
Definition caught (error : Thrown) (property : string) : M JsError :=
  match error with
  | ThrownObject e => ret e
  | ThrownNullish k =>
      throw (TypeError ("Cannot read properties of " ++ nullish_name k
                          ++ " (reading '" ++ property ++ "')"))
  end.

Definition update {A} (f : loc -> A) (l : loc) (a : A) : loc -> A :=
  fun l' => if Nat.eqb l' l then a else f l'.

Definition record_event (ev : Event) (st : State) : State :=
  {| sources := sources st; contexts := contexts st; next_loc := next_loc st;
     fallbackConfig := fallbackConfig st; trace := trace st ++ [ev];
     child_process := child_process st |}.

(** Evaluation of an object literal that becomes a context object. *)
Definition new_context (entries : ContextObj) : M loc :=
  fun st =>
    (Normal (next_loc st),
     {| sources := sources st;
        contexts := update (contexts st) (next_loc st) entries;
        next_loc := S (next_loc st);
        fallbackConfig := fallbackConfig st; trace := trace st;
        child_process := child_process st |}).

(** Evaluation of an object literal that becomes a [source] object. *)
Definition new_source (src : SourceObj) : M loc :=
  fun st =>
    (Normal (next_loc st),
     {| sources := update (sources st) (next_loc st) src;
        contexts := contexts st;
        next_loc := S (next_loc st);
        fallbackConfig := fallbackConfig st; trace := trace st;
        child_process := child_process st |}).

(** [context[key]]: [None] is [undefined]. *)
Fixpoint prop (key : string) (o : ContextObj) : option string :=
  match o with
  | [] => None
  | (k, v) :: o' => if String.eqb k key then Some v else prop key o'
  end.

Definition read_context (l : loc) : M ContextObj :=
  gets (fun st => contexts st l).

Definition read_source (l : loc) : M SourceObj :=
  gets (fun st => sources st l).

Record QueryResult : Type := {
  handled : bool;
  content : string;
  data : option loc;
  error : option string
}.

Record ExpansionResult : Type := {
  expansion_content : string;
  expansion_data : option loc;
  suggestions : option (list string)
}.

Record Command : Type := {
  name : string;
  aliases : list string;
  description : string;
  handler : option string -> M QueryResult
}.

Inductive Level : Type := debug | info | warn | error_level.

Record ActionableLogLine : Type := {
  timestamp : string;
  message : string;
  level : option Level;
  raw : string;
  source : loc;
  getDefaultExpansion : M ExpansionResult;
  handleQuery : string -> M QueryResult;
  availableCommands : list Command
}.

Record SourceAdapter : Type := {
  adapter_type : string;
  adapter_parse : string -> M (option ActionableLogLine);
  adapter_getDefaultExpansion : ActionableLogLine -> M ExpansionResult;
  adapter_handleQuery : ActionableLogLine -> string -> M QueryResult;
  getCommands : M (list Command)
}.

(* ================================================================== *)
(** * The beads adapter ([src/adapters/beads.ts]) *)
(* ================================================================== *)

Module Beads.

(** Event category descriptions. *)
Definition EVENT_CATEGORIES : list (string * string) :=
  [ ("ep", "Epoch (app lifecycle)");
    ("ss", "Session (agent workflows)");
    ("sk", "Skill (Claude skill activations)");
    ("bd", "Beads (issue operations)");
    ("gt", "Git (version control)");
    ("hk", "Hook (git hook triggers)");
    ("gd", "Guard (enforcement)") ].

(** [promisify(exec)]: the call is recorded, then the promise settles the
    way the child process answers after the history so far. *)
Definition execAsync (command : string) : M string :=
  fun st =>
    let st' := record_event (EvExec command) st in
    match child_process st (trace st) command with
    | Fulfilled stdout => (Normal stdout, st')
    | Rejected e => (Throw (ThrownObject e), st')
    end.

(** Execute a bd command and return output. *)
Definition runBdCommand (args : string) : M string :=
  try_catch
    (stdout <- execAsync ("bd " ++ args) ;; ret (trim stdout))
    (fun error =>
       err <- caught error "stderr" ;;
       ret (or_default (or_opt (err_stderr err) (err_message err))
                       "Command failed")).

(** Parse event code into category and action.  [split] never returns an
    empty array; were it to, [category] would be [undefined], which both
    uses of it turn into the string ["undefined"]. *)
Definition parseEventCode (eventCode : string) : string * string :=
  let parts := split "." eventCode in
  (interpolate (hd_error parts), join "." (tl parts)).

(** A method call on a value that may be [undefined]. *)
Definition receiver (v : option string) (method : string) : M string :=
  match v with
  | Some s => ret s
  | None =>
      throw (TypeError ("Cannot read properties of undefined (reading '"
                          ++ method ++ "')"))
  end.

Definition handled_with (text : string) : QueryResult :=
  {| handled := true; content := text; data := None; error := None |}.

Definition NO_ISSUE : string := "No issue associated with this event".

(** Create commands for a beads log line.  Every handler closes over the
    reference [context] and reads the object when it runs. *)
Definition createBeadsCommands (context : loc) : list Command :=
  [ {| name := "show";
       aliases := ["s"];
       description := "Show issue details";
       handler := fun _ =>
         ctx <- read_context context ;;
         let issueId := prop "issueId" ctx in
         if negb (truthy_opt issueId) || strict_eq issueId "none" then
           ret (handled_with NO_ISSUE)
         else
           content <- runBdCommand ("show " ++ interpolate issueId) ;;
           ret (handled_with content) |};
    {| name := "related";
       aliases := ["r"; "rel"];
       description := "Show related events";
       handler := fun _ =>
         ctx <- read_context context ;;
         let issueId := prop "issueId" ctx in
         if truthy_opt issueId && negb (strict_eq issueId "none") then
           content <- runBdCommand ("log --issue " ++ interpolate issueId) ;;
           ret (handled_with content)
         else
           eventCode <- receiver (prop "eventCode" ctx) "split" ;;
           let category := fst (parseEventCode eventCode) in
           content <- runBdCommand
                        ("log --category " ++ category ++ " --last 20") ;;
           ret (handled_with content) |};
    {| name := "deps";
       aliases := ["d"; "dependencies"];
       description := "Show issue dependencies";
       handler := fun _ =>
         ctx <- read_context context ;;
         let issueId := prop "issueId" ctx in
         if negb (truthy_opt issueId) || strict_eq issueId "none" then
           ret (handled_with NO_ISSUE)
         else
           content <- runBdCommand ("show " ++ interpolate issueId) ;;
           ret (handled_with content) |};
    {| name := "category";
       aliases := ["c"; "cat"];
       description := "Filter by event category";
       handler := fun params =>
         ctx <- read_context context ;;
         cat <- (if truthy_opt params then ret (interpolate params)
                 else
                   eventCode <- receiver (prop "eventCode" ctx) "split" ;;
                   ret (fst (parseEventCode eventCode))) ;;
         content <- runBdCommand ("log --category " ++ cat ++ " --last 30") ;;
         ret (handled_with content) |};
    {| name := "session";
       aliases := ["sess"];
       description := "Show events from this session";
       handler := fun _ =>
         ctx <- read_context context ;;
         let sessionId := prop "sessionId" ctx in
         if negb (truthy_opt sessionId) then
           ret (handled_with "No session ID available")
         else
           content <- runBdCommand
                        ("log --session " ++ interpolate sessionId) ;;
           ret (handled_with content) |};
    {| name := "before";
       aliases := ["b"];
       description := "Show events before this timestamp";
       handler := fun _ =>
         ctx <- read_context context ;;
         content <- runBdCommand
                      ("log --until " ++ interpolate (prop "timestamp" ctx)
                         ++ " --last 20") ;;
         ret (handled_with content) |};
    {| name := "after";
       aliases := ["a"];
       description := "Show events after this timestamp";
       handler := fun _ =>
         ctx <- read_context context ;;
         content <- runBdCommand
                      ("log --since " ++ interpolate (prop "timestamp" ctx)
                         ++ " --last 20") ;;
         ret (handled_with content) |} ].

(** Context extracted from a beads log line. *)
Record BeadsContext : Type := {
  ctx_timestamp : string;
  ctx_eventCode : string;
  ctx_issueId : string;
  ctx_agentId : string;
  ctx_sessionId : string;
  ctx_details : string
}.

(** The object that a [BeadsContext] literal creates. *)
Definition context_object (c : BeadsContext) : ContextObj :=
  [ ("timestamp", ctx_timestamp c);
    ("eventCode", ctx_eventCode c);
    ("issueId", ctx_issueId c);
    ("agentId", ctx_agentId c);
    ("sessionId", ctx_sessionId c);
    ("details", ctx_details c) ].

(** [cmd.aliases.includes(cmdName)]. *)
Definition aliases_include (cmd : Command) (cmdName : option string) : bool :=
  existsb (fun a => strict_eq cmdName a) (aliases cmd).

(** The [for] loop of [handleQuery]: the handler call of the first command
    whose name or alias is [cmdName], if there is one. *)
Fixpoint find_command (commands : list Command) (cmdName : option string)
  (params : string) : option (M QueryResult) :=
  match commands with
  | [] => None
  | cmd :: rest =>
      if strict_eq cmdName (name cmd) || aliases_include cmd cmdName
      then Some (handler cmd (Some params))
      else find_command rest cmdName params
  end.

(** The method [handleQuery] of a beads line, over its [commands]. *)
Definition line_handleQuery (commands : list Command) (input : string)
  : M QueryResult :=
  let trimmed := toLowerCase (trim input) in
  let parts := split_ws trimmed in
  let cmdName := hd_error parts in
  let params := join " " (tl parts) in
  match find_command commands cmdName params with
  | Some call => call
  | None =>
      ret {| handled := false;
             content := "";
             data := None;
             error := Some ("Unknown command: " ++ interpolate cmdName
                              ++ ". Try: "
                              ++ join ", " (map name commands))%string |}
  end.

(** What a template literal prints for the members that the object
    literal [EVENT_CATEGORIES] inherits from [Object.prototype]: for a
    built-in function, as Node prints it, the text
    [function name() { [native code] }], and for the accessor [__proto__]
    the text of [Object.prototype] itself. *)
Definition native_function (name : string) : string :=
  "function " ++ name ++ "() { [native code] }".

Definition OBJECT_PROTOTYPE : list (string * string) :=
  [ ("constructor", native_function "Object");
    ("__defineGetter__", native_function "__defineGetter__");
    ("__defineSetter__", native_function "__defineSetter__");
    ("hasOwnProperty", native_function "hasOwnProperty");
    ("__lookupGetter__", native_function "__lookupGetter__");
    ("__lookupSetter__", native_function "__lookupSetter__");
    ("isPrototypeOf", native_function "isPrototypeOf");
    ("propertyIsEnumerable", native_function "propertyIsEnumerable");
    ("toString", native_function "toString");
    ("valueOf", native_function "valueOf");
    ("__proto__", "[object Object]");
    ("toLocaleString", native_function "toLocaleString") ].

(** [EVENT_CATEGORIES[category] || 'Unknown'], as the template literal
    of [getDefaultExpansion] prints it.  The lookup finds the table's own
    properties and then the inherited ones, all of which are truthy. *)
Definition category_description (category : string) : string :=
  match prop category EVENT_CATEGORIES with
  | Some description => or_else description "Unknown"
  | None => or_default (prop category OBJECT_PROTOTYPE) "Unknown"
  end.

Definition optional_line (label : string) (shown : bool) (v : option string)
  : string :=
  if shown then "**" ++ label ++ ":** " ++ interpolate v ++ String "010" ""
  else "".

(** The method [getDefaultExpansion] of a beads line. *)
Definition line_getDefaultExpansion (context : loc) : M ExpansionResult :=
  ctx <- read_context context ;;
  eventCode <- receiver (prop "eventCode" ctx) "split" ;;
  let (category, action) := parseEventCode eventCode in
  let issueId := prop "issueId" ctx in
  ret {| expansion_content :=
           "**Event:** " ++ eventCode ++ String "010" ""
           ++ "**Category:** " ++ category_description category
           ++ String "010" ""
           ++ "**Action:** " ++ action ++ String "010" ""
           ++ optional_line "Issue"
                (truthy_opt issueId && negb (strict_eq issueId "none")) issueId
           ++ optional_line "Agent" (truthy_opt (prop "agentId" ctx))
                (prop "agentId" ctx)
           ++ optional_line "Session" (truthy_opt (prop "sessionId" ctx))
                (prop "sessionId" ctx)
           ++ optional_line "Details" (truthy_opt (prop "details" ctx))
                (prop "details" ctx);
         expansion_data := Some context;
         suggestions := Some ["show"; "related"; "category"; "session"] |}.

(** Create an ActionableLogLine from parsed beads context.  [context] is
    the reference the caller passes and [c] what that object holds at the
    call, the caller having just created it. *)
Definition createActionableLogLine (raw : string) (context : loc)
  (c : BeadsContext) : M ActionableLogLine :=
  let commands := createBeadsCommands context in
  src <- new_source {| src_type := "beads";
                       src_id := or_else (ctx_issueId c) (ctx_eventCode c);
                       src_context := context |} ;;
  ret {| timestamp := ctx_timestamp c;
         message := ctx_eventCode c;
         level := None;
         raw := raw;
         source := src;
         getDefaultExpansion := line_getDefaultExpansion context;
         handleQuery := line_handleQuery commands;
         availableCommands := commands |}.

(** [/^\d{4}-\d{2}-\d{2}T/] *)
Definition ISO_8601_PREFIX : list (ascii -> bool) :=
  [ is_digit; is_digit; is_digit; is_digit; Ascii.eqb "-";
    is_digit; is_digit; Ascii.eqb "-";
    is_digit; is_digit; Ascii.eqb "T" ].

(** [BeadsAdapter.parse].  The argument is a string, so of the defensive
    test only [!rawLine] remains. *)
Definition parse (rawLine : string) : M (option ActionableLogLine) :=
  if negb (truthy rawLine) then ret None
  else
    match split "|" rawLine with
    | timestamp :: eventCode :: issueId :: agentId :: sessionId
        :: detailParts =>
        if negb (truthy timestamp)
           || negb (match_classes ISO_8601_PREFIX timestamp)
        then ret None
        else if negb (truthy eventCode) || negb (includes "." eventCode)
        then ret None
        else
          let c := {| ctx_timestamp := timestamp;
                      ctx_eventCode := eventCode;
                      ctx_issueId := or_else issueId "none";
                      ctx_agentId := or_else agentId "";
                      ctx_sessionId := or_else sessionId "";
                      ctx_details := join "|" detailParts |} in
          context <- new_context (context_object c) ;;
          line <- createActionableLogLine rawLine context c ;;
          ret (Some line)
    | _ => ret None  (* parts.length < 5 *)
    end.

Definition TEMPLATE_CONTEXT : BeadsContext :=
  {| ctx_timestamp := ""; ctx_eventCode := ""; ctx_issueId := "";
     ctx_agentId := ""; ctx_sessionId := ""; ctx_details := "" |}.

Definition BeadsAdapter : SourceAdapter :=
  {| adapter_type := "beads";
     adapter_parse := parse;
     adapter_getDefaultExpansion := fun line => getDefaultExpansion line;
     adapter_handleQuery := fun line input => handleQuery line input;
     getCommands :=
       context <- new_context (context_object TEMPLATE_CONTEXT) ;;
       ret (createBeadsCommands context) |}.

Definition createBeadsAdapter : SourceAdapter := BeadsAdapter.

End Beads.

(* ================================================================== *)
(** * The adapter registry ([src/adapters/index.ts]) *)
(* ================================================================== *)

Module Registry.

(** [class DefaultAdapterRegistry]: its one private field. *)
Record DefaultAdapterRegistry : Type := {
  adapters : JsMap.t SourceAdapter
}.

(** [new DefaultAdapterRegistry()] *)
Definition create : DefaultAdapterRegistry :=
  {| adapters := JsMap.empty SourceAdapter |}.

(** [register]: the lines written by [console.warn], and the registry
    after the call. *)
Definition register (r : DefaultAdapterRegistry) (adapter : SourceAdapter)
  : list string * DefaultAdapterRegistry :=
  ((if JsMap.has (adapters r) (adapter_type adapter)
    then ["Adapter '" ++ adapter_type adapter
            ++ "' already registered, replacing"]%string
    else []),
   {| adapters := JsMap.set (adapters r) (adapter_type adapter) adapter |}).

Definition get (r : DefaultAdapterRegistry) (type : string)
  : option SourceAdapter :=
  JsMap.get (adapters r) type.

(** The loop of [parse] over [this.adapters.values()]. *)
Fixpoint try_adapters (candidates : list SourceAdapter) (rawLine : string)
  : M (option ActionableLogLine) :=
  match candidates with
  | [] => ret None
  | adapter :: rest =>
      result <- adapter_parse adapter rawLine ;;
      match result with
      | Some line => ret (Some line)
      | None => try_adapters rest rawLine
      end
  end.

Definition parse (r : DefaultAdapterRegistry) (rawLine : string)
  : M (option ActionableLogLine) :=
  try_adapters (JsMap.values (adapters r)) rawLine.

Definition types (r : DefaultAdapterRegistry) : list string :=
  JsMap.keys (adapters r).

(** A sequence of [register] calls on a new registry. *)
Definition register_all (calls : list SourceAdapter) : DefaultAdapterRegistry :=
  fold_left (fun r adapter => snd (register r adapter)) calls create.

(** Get the global adapter registry.  The module variable [globalRegistry]
    is passed in and returned: [None] is [null]. *)
Definition getRegistry (globalRegistry : option DefaultAdapterRegistry)
  : DefaultAdapterRegistry * option DefaultAdapterRegistry :=
  match globalRegistry with
  | None => (create, Some create)
  | Some r => (r, Some r)
  end.

(** Register an adapter with the global registry: the lines written by
    [console.warn] and the module variable afterwards, which refers to
    the registry that [register] updated. *)
Definition registerAdapter (globalRegistry : option DefaultAdapterRegistry)
  (adapter : SourceAdapter)
  : list string * option DefaultAdapterRegistry :=
  let (r, _) := getRegistry globalRegistry in
  let (warnings, r') := register r adapter in
  (warnings, Some r').

End Registry.

(* ================================================================== *)
(** * The query interpreter ([src/interpreter.ts]) *)
(* ================================================================== *)

Module Interpreter.

(** Default fallback config (disabled). *)
Definition defaultFallbackConfig : ClaudeFallbackConfig :=
  {| enabled := false; fallback_handler := None |}.

(** Configure Claude fallback. *)
Definition configureClaudeFallback (config : ClaudeFallbackConfig) : M unit :=
  modify (fun st =>
    {| sources := sources st; contexts := contexts st;
       next_loc := next_loc st; fallbackConfig := config;
       trace := trace st; child_process := child_process st |}).

Definition NL : string := String "010" "".

(** One turn of the loop over [Object.entries(ctx)]. *)
Definition context_entry (entry : string * string) : string :=
  let (key, value) := entry in
  if truthy value && negb (String.eqb value "none")
  then "- " ++ key ++ ": " ++ value ++ NL
  else "".

(** Format log line context for Claude. *)
Definition formatContextForClaude (line : ActionableLogLine) : M string :=
  src <- read_source (source line) ;;
  ctx <- read_context (src_context src) ;;
  let context :=
    ("Log line context:" ++ NL
     ++ "- Type: " ++ src_type src ++ NL
     ++ "- Timestamp: " ++ timestamp line ++ NL
     ++ "- Message: " ++ message line ++ NL
     ++ "- ID: " ++ src_id src ++ NL
     ++ String.concat "" (map context_entry ctx))%string in
  let commands :=
    map (fun c => (name c ++ " (" ++ description c ++ ")")%string)
        (availableCommands line) in
  ret (context ++ NL ++ "Available commands: " ++ join ", " commands)%string.

(** The call [fallbackConfig.handler(context, input)], awaited. *)
Definition call_handler
  (h : list Event -> string -> string -> Settled Thrown)
  (context input : string) : M string :=
  fun st =>
    let st' := record_event (EvFallback context input) st in
    match h (trace st) context input with
    | Fulfilled response => (Normal response, st')
    | Rejected e => (Throw e, st')
    end.

(** Interpret a user query against a log line. *)
Definition interpret (line : ActionableLogLine) (input : string)
  : M QueryResult :=
  result <- handleQuery line input ;;
  if handled result then ret result
  else
    config <- gets fallbackConfig ;;
    match enabled config, fallback_handler config with
    | true, Some h =>
        try_catch
          (context <- formatContextForClaude line ;;
           response <- call_handler h context input ;;
           ret {| handled := true; content := response;
                  data := None; error := None |})
          (fun error =>
             err <- caught error "message" ;;
             ret {| handled := false;
                    content := "";
                    data := None;
                    error := Some ("Claude fallback failed: "
                                     ++ interpolate (err_message err))%string |})
    | _, _ => ret result
    end.

(** The regular expression of [parseCommand], applied to the trimmed
    input: an anchored group [\w+], then optionally [\s+] and a second
    group of any characters but line terminators, then the end of the
    input.  The result holds the captures [match[1]] and [match[2]] when
    the expression matches.  [\w+] has to take the whole leading run of
    word characters, because what follows it in the expression starts with
    a white space or is the end of the input.  Then either the input ends
    (the optional part does not take part and [match[2]] is [undefined]),
    or [\s+] takes the whole run of white space and the second group
    everything after it, which the end anchor accepts only when no line
    terminator is left there; giving back part of the white space to the
    second group cannot help, since it would still have to cross the same
    characters. *)
Definition match_command (trimmed : string) : option (string * option string) :=
  let (word, rest) := span is_word trimmed in
  if negb (truthy word) then None
  else if negb (truthy rest) then Some (word, None)
  else
    let (blank, tail) := span is_space rest in
    if negb (truthy blank) then None
    else if all (fun c => negb (is_line_terminator c)) tail
    then Some (word, Some tail)
    else None.

Record ParsedCommand : Type := {
  command : string;
  params : string
}.

(** Parse command from input. *)
Definition parseCommand (input : string) : option ParsedCommand :=
  let trimmed := trim input in
  if negb (truthy trimmed) then None
  else
    match match_command trimmed with
    | None => None
    | Some (m1, m2) =>
        Some {| command := toLowerCase m1;
                params := or_default (option_map trim m2) "" |}
    end.

(** A match of [/^word\s/]. *)
Definition word_then_space (word t : string) : bool :=
  match strip_prefix word t with
  | Some (String c _) => is_space c
  | _ => false
  end.

(** A match of [/^tell\s+me/]: the run of white space after [tell] has to
    be taken whole, since [m] is no white space. *)
Definition tell_me (t : string) : bool :=
  match strip_prefix "tell" t with
  | Some rest =>
      let (blanks, tail) := span is_space rest in
      truthy blanks && startsWith "me" tail
  | None => false
  end.

(** Check if input looks like a natural language query (vs a command). *)
Definition isNaturalLanguage (input : string) : bool :=
  let trimmed := toLowerCase (trim input) in
  existsb (fun pattern => pattern trimmed)
    [ word_then_space "what";
      word_then_space "why";
      word_then_space "how";
      word_then_space "when";
      word_then_space "where";
      word_then_space "who";
      word_then_space "can";
      word_then_space "could";
      word_then_space "would";
      word_then_space "should";
      word_then_space "is";
      word_then_space "are";
      tell_me;
      startsWith "explain";
      startsWith "describe";
      ends_with_char "?" ].

End Interpreter.

(* ================================================================== *)
(** * The panel ([src/renderer/panel.ts]): the callers of the core *)
(* ================================================================== *)

Module Panel.

(** The [parsed] member of a [logLine] payload. *)
Record ParsedSummary : Type := {
  summary_timestamp : string;
  summary_message : string;
  sourceType : string;
  sourceId : string
}.

(** The messages that the three methods post, with their payloads. *)
Inductive WebViewMessage : Type :=
| LogLineMessage (raw : string) (parsed : option ParsedSummary)
| ExpansionMessage (payload : ExpansionResult)
| QueryResultMessage (content : string) (error : bool)
    (errorMessage : option string).

(** The panel object: the field [selectedLine] and, in order, the
    messages posted to the WebView. *)
Record AllpPanel : Type := {
  selectedLine : option ActionableLogLine;
  posted : list WebViewMessage
}.

Definition postMessage (p : AllpPanel) (m : WebViewMessage) : AllpPanel :=
  {| selectedLine := selectedLine p; posted := posted p ++ [m] |}.

(** A method of the panel, awaited to completion: how it completes, the
    panel and the process afterwards. *)
Definition Method : Type := AllpPanel -> State -> Completion unit * AllpPanel * State.

(** Add a log line to the viewer.  [registry] is what [getRegistry()]
    returns. *)
Definition addLogLine (registry : Registry.DefaultAdapterRegistry)
  (rawLine : string) : Method :=
  fun p st =>
    match Registry.parse registry rawLine st with
    | (Throw e, st1) => (Throw e, p, st1)
    | (Normal None, st1) =>
        (Normal tt, postMessage p (LogLineMessage rawLine None), st1)
    | (Normal (Some parsed), st1) =>
        let src := sources st1 (source parsed) in
        (Normal tt,
         postMessage p
           (LogLineMessage rawLine
              (Some {| summary_timestamp := timestamp parsed;
                       summary_message := message parsed;
                       sourceType := src_type src;
                       sourceId := src_id src |})),
         st1)
    end.

(** Handle line selection from WebView. *)
Definition handleLineSelect (registry : Registry.DefaultAdapterRegistry)
  (lineIndex : nat) (rawLine : string) : Method :=
  fun p st =>
    match Registry.parse registry rawLine st with
    | (Throw e, st1) => (Throw e, p, st1)
    | (Normal None, st1) =>
        (Normal tt,
         postMessage p
           (ExpansionMessage
              {| expansion_content := "Unable to parse log line";
                 expansion_data := None;
                 suggestions := Some [] |}),
         st1)
    | (Normal (Some parsed), st1) =>
        let p1 := {| selectedLine := Some parsed; posted := posted p |} in
        match getDefaultExpansion parsed st1 with
        | (Throw e, st2) => (Throw e, p1, st2)
        | (Normal expansion, st2) =>
            (Normal tt, postMessage p1 (ExpansionMessage expansion), st2)
        end
    end.

(** Handle query from WebView. *)
Definition handleQuery (input : string) : Method :=
  fun p st =>
    match selectedLine p with
    | None =>
        (Normal tt,
         postMessage p (QueryResultMessage "No log line selected" true None),
         st)
    | Some line =>
        match Interpreter.interpret line input st with
        | (Throw e, st1) => (Throw e, p, st1)
        | (Normal result, st1) =>
            (Normal tt,
             postMessage p
               (QueryResultMessage (content result)
                  (negb (handled result) && truthy_opt (error result))
                  (error result)),
             st1)
        end
    end.

End Panel.

(* ================================================================== *)
(** * Vocabulary of the specification *)
(* ================================================================== *)

Module Spec.

(** ** The beads grammar (spec 4.2) *)

(** Empty or made of white space only. *)
Definition blank (s : string) : Prop := all is_space s = true.

(** [s] contains at least one [.]. *)
Definition has_dot (s : string) : Prop :=
  exists before after : string, s = (before ++ "." ++ after)%string.

Definition digits (n : nat) (s : string) : Prop :=
  String.length s = n /\ all is_digit s = true.

(** [s] starts with an ISO-8601 date-time prefix [YYYY-MM-DDT]. *)
Definition iso_prefixed (s : string) : Prop :=
  exists yyyy mm dd rest : string,
    digits 4 yyyy /\ digits 2 mm /\ digits 2 dd /\
    s = (yyyy ++ "-" ++ mm ++ "-" ++ dd ++ "T" ++ rest)%string.

(** The [i]-th field of a line, counted from 0. *)
Definition field (i : nat) (rawLine : string) : string :=
  nth i (split "|" rawLine) "".

(** The ways a string can fail the grammar. *)
Definition violates_grammar (rawLine : string) : Prop :=
  rawLine = "" \/
  blank rawLine \/
  List.length (split "|" rawLine) < 5 \/
  ~ iso_prefixed (field 0 rawLine) \/
  field 1 rawLine = "" \/
  ~ has_dot (field 1 rawLine).

(** A field holds no delimiter. *)
Definition pipe_free (s : string) : Prop := includes "|" s = false.

(** The line that [parse] returns for the context [c], when [context] is
    the reference of the context object and [src] that of the source
    object; and the process after such a [parse] from [st]: two objects
    were created. *)
Definition beads_line (rawLine : string) (c : Beads.BeadsContext)
  (context src : loc) : ActionableLogLine :=
  {| timestamp := Beads.ctx_timestamp c;
     message := Beads.ctx_eventCode c;
     level := None;
     raw := rawLine;
     source := src;
     getDefaultExpansion := Beads.line_getDefaultExpansion context;
     handleQuery := Beads.line_handleQuery (Beads.createBeadsCommands context);
     availableCommands := Beads.createBeadsCommands context |}.

Definition after_parse (st : State) (c : Beads.BeadsContext) : State :=
  {| sources :=
       update (sources st) (S (next_loc st))
         {| src_type := "beads";
            src_id := or_else (Beads.ctx_issueId c) (Beads.ctx_eventCode c);
            src_context := next_loc st |};
     contexts := update (contexts st) (next_loc st) (Beads.context_object c);
     next_loc := S (S (next_loc st));
     fallbackConfig := fallbackConfig st;
     trace := trace st;
     child_process := child_process st |}.

(** ** Command dispatch (spec 4.2) *)

(** [pieces] are the pieces of [s] between its runs of white space: no
    piece holds white space, and the pieces alternate in [s] with runs of
    white space that cannot be extended. *)
Inductive split_at_spaces : string -> list string -> Prop :=
| sas_last : forall piece,
    all (fun c => negb (is_space c)) piece = true ->
    split_at_spaces piece [piece]
| sas_more : forall piece run s pieces,
    all (fun c => negb (is_space c)) piece = true ->
    run <> "" ->
    all is_space run = true ->
    match s with
    | EmptyString => True
    | String c _ => is_space c = false
    end ->
    split_at_spaces s pieces ->
    split_at_spaces (piece ++ run ++ s) (piece :: pieces).

(** A command answers to [token]: its name or one of its aliases. *)
Definition answers_to (token : string) (cmd : Command) : bool :=
  String.eqb (name cmd) token || existsb (String.eqb token) (aliases cmd).

Definition BEADS_COMMAND_NAMES : list string :=
  ["show"; "related"; "deps"; "category"; "session"; "before"; "after"].

Definition unknown_command (token : string) : QueryResult :=
  {| handled := false;
     content := "";
     data := None;
     error := Some ("Unknown command: " ++ token
                      ++ ". Try: show, related, deps, category, session, before, after")%string |}.

(** What a handler shows after running the command line [cmdline] from
    [st]: the trimmed output, or the text of the failure. *)
Definition process_text (st : State) (cmdline : string) : string :=
  match child_process st (trace st) cmdline with
  | Fulfilled stdout => trim stdout
  | Rejected e =>
      or_default (or_opt (err_stderr e) (err_message e)) "Command failed"
  end.

(** A computation that leaves every object of the store as it is. *)
Definition preserves_store {A : Type} (c : M A) : Prop :=
  forall st : State,
    sources (snd (c st)) = sources st /\ contexts (snd (c st)) = contexts st.

(** ** The registry (spec 4.3) *)

(** An adapter that matches no line, as the tests of the registry use. *)
Definition null_adapter (type : string) (label : string) : SourceAdapter :=
  {| adapter_type := type;
     adapter_parse := fun _ => ret None;
     adapter_getDefaultExpansion := fun _ =>
       ret {| expansion_content := label; expansion_data := None;
              suggestions := None |};
     adapter_handleQuery := fun _ _ =>
       ret {| handled := false; content := ""; data := None; error := None |};
     getCommands := ret [] |}.

(** The type names of a sequence of [register] calls, each at the place of
    its first registration. *)
Fixpoint first_registrations (types : list string) : list string :=
  match types with
  | [] => []
  | ty :: rest =>
      ty :: filter (fun ty' => negb (String.eqb ty' ty))
                   (first_registrations rest)
  end.

(** The adapter that the last [register] call for [type] passed. *)
Definition last_registered (calls : list SourceAdapter) (type : string)
  : option SourceAdapter :=
  find (fun adapter => String.eqb (adapter_type adapter) type) (rev calls).

(** Trying adapters in order from state [st]: the completion and the state
    reached.  An adapter that returns [null] is passed over, the first
    other completion ends the trial. *)
Inductive first_match (rawLine : string)
  : list SourceAdapter -> State ->
    Completion (option ActionableLogLine) -> State -> Prop :=
| fm_exhausted : forall st,
    first_match rawLine [] st (Normal None) st
| fm_null : forall adapter rest st st1 outcome st2,
    adapter_parse adapter rawLine st = (Normal None, st1) ->
    first_match rawLine rest st1 outcome st2 ->
    first_match rawLine (adapter :: rest) st outcome st2
| fm_found : forall adapter rest st line st1,
    adapter_parse adapter rawLine st = (Normal (Some line), st1) ->
    first_match rawLine (adapter :: rest) st (Normal (Some line)) st1
| fm_thrown : forall adapter rest st e st1,
    adapter_parse adapter rawLine st = (Throw e, st1) ->
    first_match rawLine (adapter :: rest) st (Throw e) st1.

(** ** The interpreter (spec 4.4) *)


Definition fallback_failed (e : JsError) : QueryResult :=
  {| handled := false;
     content := "";
     data := None;
     error := Some ("Claude fallback failed: "
                      ++ interpolate (err_message e))%string |}.

Definition fallback_answer (response : string) : QueryResult :=
  {| handled := true; content := response; data := None; error := None |}.

(** The [TypeError] of reading [property] from [null] or [undefined]. *)
Definition cannot_read (k : Nullish) (property : string) : Thrown :=
  ThrownObject
    (TypeError ("Cannot read properties of " ++ nullish_name k
                  ++ " (reading '" ++ property ++ "')")).

(** What [deepEqual] compares on [line.source], together with the identity
    of the context object. *)
Definition source_snapshot (st : State) (line : ActionableLogLine)
  : string * string * loc * ContextObj :=
  let src := sources st (source line) in
  (src_type src, src_id src, src_context src, contexts st (src_context src)).

(** What a caller may do with a line and the interpreter. *)
Inductive Call : Type :=
| CallInterpret (input : string)
| CallConfigure (config : ClaudeFallbackConfig).

Definition run_call (line : ActionableLogLine) (st : State) (c : Call) : State :=
  match c with
  | CallInterpret input => snd (Interpreter.interpret line input st)
  | CallConfigure config => snd (Interpreter.configureClaudeFallback config st)
  end.

Definition run_calls (line : ActionableLogLine) (calls : list Call)
  (st : State) : State :=
  fold_left (run_call line) calls st.

(** The trimmed input [t] begins with the token [word]: word characters
    that end at a white space or at the end of [t]; [rest] is what
    follows the token. *)
Definition leading_token (t word rest : string) : Prop :=
  word <> "" /\ all is_word word = true /\
  t = (word ++ rest)%string /\
  match rest with
  | EmptyString => True
  | String c _ => is_space c = true
  end.

Definition single_line (s : string) : Prop :=
  all (fun c => negb (is_line_terminator c)) s = true.

(** The trimmed input [t] is a command: a leading token [word] of word
    characters, alone ([remainder = None]) or followed by white space and
    a remainder that holds no line terminator. *)
Definition command_form (t word : string) (remainder : option string) : Prop :=
  word <> "" /\ all is_word word = true /\
  match remainder with
  | None => t = word
  | Some r =>
      exists blanks : string,
        blanks <> "" /\ all is_space blanks = true /\
        all (fun c => negb (is_line_terminator c)) r = true /\
        t = (word ++ blanks ++ r)%string
  end.

(** ** A process to start from *)

Definition initial_state (bd : list Event -> string -> Settled JsError)
  : State :=
  {| sources := fun _ => {| src_type := ""; src_id := ""; src_context := 0 |};
     contexts := fun _ => [];
     next_loc := 0;
     fallbackConfig := Interpreter.defaultFallbackConfig;
     trace := [];
     child_process := bd |}.

(** A [bd] that is not installed: every command is rejected. *)
Definition bd_missing : list Event -> string -> Settled JsError :=
  fun _ _ => Rejected {| err_stderr := Some "bd: command not found";
                         err_message := Some "Command failed: bd" |}.

(** A [bd] that echoes its command line. *)
Definition bd_echo : list Event -> string -> Settled JsError :=
  fun _ cmdline => Fulfilled cmdline.

(** ** Sample data, after the repository's tests *)

Definition SAMPLE_TEXT : string :=
  "2025-01-15T15:04:03.456Z|bd.issue.create|bd-97ux|steve|sess-abc123|title=Implement ALLP".

Definition SAMPLE_CONTEXT : Beads.BeadsContext :=
  {| Beads.ctx_timestamp := "2025-01-15T15:04:03.456Z";
     Beads.ctx_eventCode := "bd.issue.create";
     Beads.ctx_issueId := "bd-97ux";
     Beads.ctx_agentId := "steve";
     Beads.ctx_sessionId := "sess-abc123";
     Beads.ctx_details := "title=Implement ALLP" |}.

(** A line without an issue: the entity id is the sentinel. *)
Definition BOOTUP_TEXT : string :=
  "2025-01-15T15:04:02.123Z|sk.bootup.activated||steve|sess-abc123|skill=beads-bootup".

Definition BOOTUP_CONTEXT : Beads.BeadsContext :=
  {| Beads.ctx_timestamp := "2025-01-15T15:04:02.123Z";
     Beads.ctx_eventCode := "sk.bootup.activated";
     Beads.ctx_issueId := "none";
     Beads.ctx_agentId := "steve";
     Beads.ctx_sessionId := "sess-abc123";
     Beads.ctx_details := "skill=beads-bootup" |}.

(** A fallback handler that answers every query the same way. *)
Definition constant_handler (response : string)
  : list Event -> string -> string -> Settled Thrown :=
  fun _ _ _ => Fulfilled response.

(** A fallback handler that always fails: [throw new Error(msg)]. *)
Definition failing_handler (msg : string)
  : list Event -> string -> string -> Settled Thrown :=
  fun _ _ _ =>
    Rejected (ThrownObject {| err_stderr := None; err_message := Some msg |}).


Definition with_fallback (config : ClaudeFallbackConfig) (st : State) : State :=
  snd (Interpreter.configureClaudeFallback config st).

(** ** Further vocabulary *)

(** [s] is empty or starts with a white space. *)
Definition starts_blank (s : string) : Prop :=
  match s with
  | EmptyString => True
  | String c _ => is_space c = true
  end.

(** [s] holds no white space. *)
Definition spaceless (s : string) : Prop :=
  all (fun c => negb (is_space c)) s = true.

(** A run of the [bd] executable. *)
Definition is_bd_call (ev : Event) : Prop :=
  exists args : string, ev = EvExec ("bd " ++ args).

(** A call of the fallback handler with [query]. *)
Definition is_fallback_call (query : string) (ev : Event) : Prop :=
  exists context : string, ev = EvFallback context query.

(** Between [st] and [st'] at most one external call was made, and it was
    an [allowed] one. *)
Definition at_most_one_call (allowed : Event -> Prop) (st st' : State) : Prop :=
  trace st' = trace st \/
  exists ev, allowed ev /\ trace st' = trace st ++ [ev].

(** A computation that makes no external call. *)
Definition quiet {A : Type} (c : M A) : Prop :=
  forall st : State, trace (snd (c st)) = trace st.

(** A computation that makes at most one external call, a run of [bd]. *)
Definition runs_bd_at_most_once {A : Type} (c : M A) : Prop :=
  forall st : State, at_most_one_call is_bd_call st (snd (c st)).

(** A computation whose normal results are all [handled], without
    [error]. *)
Definition answers_handled (c : M QueryResult) : Prop :=
  forall st r st', c st = (Normal r, st') ->
    handled r = true /\ error r = None.

(** A handler's run of the command line [cmdline] from [st]. *)
Definition bd_run (st : State) (cmdline : string)
  : Completion QueryResult * State :=
  (Normal (Beads.handled_with (process_text st cmdline)),
   record_event (EvExec cmdline) st).

(** An adapter whose [parse] throws. *)
Definition throwing_adapter (type : string) (e : JsError) : SourceAdapter :=
  {| adapter_type := type;
     adapter_parse := fun _ => throw e;
     adapter_getDefaultExpansion := fun line => getDefaultExpansion line;
     adapter_handleQuery := fun line input => handleQuery line input;
     getCommands := ret [] |}.

(** The registry after [registerAdapter(BeadsAdapter)] on a fresh module,
    as the extension's [activate] leaves it. *)
Definition ACTIVATED_REGISTRY : Registry.DefaultAdapterRegistry :=
  fst (Registry.getRegistry
         (snd (Registry.registerAdapter None Beads.BeadsAdapter))).

Definition NEW_PANEL : Panel.AllpPanel :=
  {| Panel.selectedLine := None; Panel.posted := [] |}.

(** The summary that [addLogLine] posts for an accepted line with the
    given first three fields. *)
Definition beads_summary (timestamp eventCode issueField : string)
  : Panel.ParsedSummary :=
  {| Panel.summary_timestamp := timestamp;
     Panel.summary_message := eventCode;
     Panel.sourceType := "beads";
     Panel.sourceId := if String.eqb issueField "" then "none" else issueField |}.


End Spec.

Import Spec.

(* ================================================================== *)
(** * The scenarios of the specification, by evaluation *)
(* ================================================================== *)

Example split_examples :
  split "|" "a|b||c|" = ["a"; "b"; ""; "c"; ""] /\
  split_ws "show  me   x" = ["show"; "me"; "x"] /\
  split_ws "" = [""] /\
  split_ws " a " = [""; "a"; ""].
Proof. repeat split; reflexivity. Qed.

Example scenario_parse_sample :
  Beads.parse SAMPLE_TEXT (initial_state bd_echo)
  = (Normal (Some (beads_line SAMPLE_TEXT SAMPLE_CONTEXT 0 1)),
     after_parse (initial_state bd_echo) SAMPLE_CONTEXT) /\
  source_snapshot (after_parse (initial_state bd_echo) SAMPLE_CONTEXT)
    (beads_line SAMPLE_TEXT SAMPLE_CONTEXT 0 1)
  = ("beads", "bd-97ux", 0,
     [ ("timestamp", "2025-01-15T15:04:03.456Z");
       ("eventCode", "bd.issue.create");
       ("issueId", "bd-97ux");
       ("agentId", "steve");
       ("sessionId", "sess-abc123");
       ("details", "title=Implement ALLP") ]).
Proof. split; reflexivity. Qed.

Example scenario_parse_rejects :
  fst (Beads.parse "" (initial_state bd_echo)) = Normal None /\
  fst (Beads.parse "not-a-date|x.y|a|b|c" (initial_state bd_echo))
  = Normal None /\
  fst (Beads.parse "   " (initial_state bd_echo)) = Normal None /\
  fst (Beads.parse "2025-01-15T15:04:03Z|nodot|a|b|c" (initial_state bd_echo))
  = Normal None.
Proof. repeat split; reflexivity. Qed.

Example scenario_parseCommand :
  Interpreter.parseCommand "  SHOW  param  "
  = Some {| Interpreter.command := "show"; Interpreter.params := "param" |} /\
  Interpreter.parseCommand "filter type=bug status=open"
  = Some {| Interpreter.command := "filter";
            Interpreter.params := "type=bug status=open" |} /\
  Interpreter.parseCommand "   " = None.
Proof. repeat split; reflexivity. Qed.

Example scenario_unknown_command :
  let st := after_parse (initial_state bd_echo) SAMPLE_CONTEXT in
  Interpreter.interpret (beads_line SAMPLE_TEXT SAMPLE_CONTEXT 0 1)
    "unknowncmd" st
  = (Normal (unknown_command "unknowncmd"), st).
Proof. reflexivity. Qed.

Example scenario_fallback :
  let st :=
    with_fallback {| enabled := true;
                     fallback_handler := Some (constant_handler "resp") |}
                  (after_parse (initial_state bd_echo) SAMPLE_CONTEXT) in
  fst (Interpreter.interpret (beads_line SAMPLE_TEXT SAMPLE_CONTEXT 0 1)
         "explain this" st)
  = Normal (fallback_answer "resp").
Proof. reflexivity. Qed.

Example scenario_show_without_bd :
  let st := after_parse (initial_state bd_missing) SAMPLE_CONTEXT in
  Interpreter.interpret (beads_line SAMPLE_TEXT SAMPLE_CONTEXT 0 1) "S" st
  = (Normal (Beads.handled_with "bd: command not found"),
     record_event (EvExec "bd show bd-97ux") st).
Proof. reflexivity. Qed.

(* ================================================================== *)
(** * Facts about strings *)
(* ================================================================== *)

Lemma truthy_iff (s : string) : truthy s = true <-> s <> "".
Proof.
  unfold truthy. destruct (String.eqb_spec s ""); simpl; split; intros; congruence.
Qed.

Lemma truthy_false_iff (s : string) : truthy s = false <-> s = "".
Proof.
  unfold truthy. destruct (String.eqb_spec s ""); simpl; split; intros; congruence.
Qed.

Lemma or_else_nonempty (s d : string) : s <> "" -> or_else s d = s.
Proof.
  intros H. unfold or_else. apply truthy_iff in H. now rewrite H.
Qed.

Lemma split_without_separator (sep : ascii) (s : string) :
  includes sep s = false -> split sep s = [s].
Proof.
  induction s as [|c s IH]; simpl; intros H; [reflexivity|].
  apply orb_false_iff in H. destruct H as [Hc Hs].
  rewrite Hc, (IH Hs). reflexivity.
Qed.

Lemma split_app_separator (sep : ascii) (p t : string) :
  includes sep p = false ->
  split sep (p ++ String sep t) = p :: split sep t.
Proof.
  induction p as [|c p IH]; simpl; intros H.
  - now rewrite Ascii.eqb_refl.
  - apply orb_false_iff in H. destruct H as [Hc Hp].
    rewrite Hc, (IH Hp). reflexivity.
Qed.

(** Splitting undoes joining when no part holds the separator. *)
Lemma split_join (sep : ascii) (parts : list string) :
  parts <> [] ->
  Forall (fun p => includes sep p = false) parts ->
  split sep (join (String sep "") parts) = parts.
Proof.
  induction parts as [|p rest IH]; intros Hne Hall; [congruence|].
  inversion Hall as [|? ? Hp Hrest]; subst.
  destruct rest as [|q rest].
  - simpl. now apply split_without_separator.
  - change (join (String sep "") (p :: q :: rest))
      with (p ++ String sep (join (String sep "") (q :: rest)))%string.
    rewrite split_app_separator by assumption.
    rewrite IH; [reflexivity|discriminate|assumption].
Qed.

Lemma space_is_not_pipe (c : ascii) : is_space c = true -> Ascii.eqb c "|" = false.
Proof.
  destruct (Ascii.eqb_spec c "|") as [->|]; [discriminate|reflexivity].
Qed.

Lemma blank_pipe_free (s : string) : blank s -> pipe_free s.
Proof.
  unfold blank, pipe_free.
  induction s as [|c s IH]; simpl; intros H; [reflexivity|].
  apply andb_true_iff in H. destruct H as [Hc Hs].
  now rewrite (space_is_not_pipe _ Hc), (IH Hs).
Qed.

Lemma includes_app (c : ascii) (a b : string) :
  includes c (a ++ String c b) = true.
Proof.
  induction a as [|d a IH]; simpl.
  - now rewrite Ascii.eqb_refl.
  - rewrite IH. apply orb_true_r.
Qed.

Lemma includes_found (c : ascii) (s : string) :
  includes c s = true -> exists a b, s = (a ++ String c b)%string.
Proof.
  induction s as [|d s IH]; simpl; intros H; [discriminate|].
  destruct (Ascii.eqb_spec d c) as [->|Hd].
  - exists "", s. reflexivity.
  - simpl in H. destruct (IH H) as (a & b & ->).
    exists (String d a), b. reflexivity.
Qed.

Lemma includes_dot_iff (s : string) : includes "." s = true <-> has_dot s.
Proof.
  split.
  - intros H. destruct (includes_found _ _ H) as (a & b & ->). now exists a, b.
  - intros (a & b & ->). apply includes_app.
Qed.

Lemma has_dot_nonempty (s : string) : has_dot s -> s <> "".
Proof.
  intros (a & b & ->). destruct a; discriminate.
Qed.

Lemma digits_cons (n : nat) (c : ascii) (s : string) :
  digits (S n) (String c s) <-> is_digit c = true /\ digits n s.
Proof.
  unfold digits; simpl. rewrite andb_true_iff. intuition congruence.
Qed.

Lemma digits_zero (s : string) : digits 0 s <-> s = "".
Proof.
  unfold digits. destruct s; simpl; intuition congruence.
Qed.

Lemma digits_succ_inv (n : nat) (s : string) :
  digits (S n) s -> exists c s', s = String c s' /\ is_digit c = true /\ digits n s'.
Proof.
  destruct s as [|c s]; intros H.
  - destruct H; discriminate.
  - apply digits_cons in H. now exists c, s.
Qed.

Lemma match_classes_cons (cl : ascii -> bool) (cls : list (ascii -> bool))
  (s : string) :
  match_classes (cl :: cls) s = true ->
  exists c s', s = String c s' /\ cl c = true /\ match_classes cls s' = true.
Proof.
  destruct s as [|c s]; simpl; intros H; [discriminate|].
  apply andb_true_iff in H. exists c, s. tauto.
Qed.

(** The anchored class sequence accepts exactly the ISO-prefixed strings. *)
Lemma iso_prefix_iff (s : string) :
  match_classes Beads.ISO_8601_PREFIX s = true <-> iso_prefixed s.
Proof.
  split.
  - intros H. unfold Beads.ISO_8601_PREFIX in H.
    repeat match type of H with
           | match_classes (_ :: _) _ = true =>
               apply match_classes_cons in H;
               destruct H as (? & ? & -> & ? & H)
           end.
    repeat match goal with
           | E : Ascii.eqb _ _ = true |- _ => apply Ascii.eqb_eq in E; subst
           end.
    match goal with
    | |- iso_prefixed (String ?a (String ?b (String ?c (String ?d (String _
           (String ?e (String ?f (String _ (String ?g (String ?h
           (String _ ?r))))))))))) =>
        exists (String a (String b (String c (String d "")))),
               (String e (String f "")), (String g (String h "")), r
    end.
    unfold digits; simpl.
    repeat match goal with E : is_digit _ = true |- _ => rewrite E; clear E end.
    repeat split; reflexivity.
  - intros (y & m & d & rest & Hy & Hm & Hd & ->).
    repeat match goal with
           | D : digits (S _) _ |- _ =>
               apply digits_succ_inv in D; destruct D as (? & ? & -> & ? & D)
           | D : digits 0 _ |- _ => apply digits_zero in D; subst
           end.
    cbn [append match_classes Beads.ISO_8601_PREFIX].
    repeat match goal with E : is_digit _ = true |- _ => rewrite E; clear E end.
    reflexivity.
Qed.

Lemma iso_prefixed_nonempty (s : string) : iso_prefixed s -> s <> "".
Proof.
  intros H. apply iso_prefix_iff in H. destruct s; [discriminate H|discriminate].
Qed.

(* ================================================================== *)
(** * The beads adapter: what [parse] does *)
(* ================================================================== *)

Section ParseFacts.

Variables (rawLine : string) (st : State).

(** The shape of every run of [parse]: nothing happens and [null] comes
    back, or the two objects are created and the line comes back. *)
Lemma parse_cases :
  Beads.parse rawLine st = (Normal None, st) \/
  exists timestamp eventCode issueId agentId sessionId detailParts,
    let c := {| Beads.ctx_timestamp := timestamp;
                Beads.ctx_eventCode := eventCode;
                Beads.ctx_issueId := or_else issueId "none";
                Beads.ctx_agentId := or_else agentId "";
                Beads.ctx_sessionId := or_else sessionId "";
                Beads.ctx_details := join "|" detailParts |} in
    rawLine <> "" /\
    split "|" rawLine
      = timestamp :: eventCode :: issueId :: agentId :: sessionId
          :: detailParts /\
    match_classes Beads.ISO_8601_PREFIX timestamp = true /\
    eventCode <> "" /\
    includes "." eventCode = true /\
    Beads.parse rawLine st
      = (Normal (Some (beads_line rawLine c (next_loc st) (S (next_loc st)))),
         after_parse st c).
Proof.
  unfold Beads.parse.
  destruct (truthy rawLine) eqn:Hraw; cbn [negb]; [|left; reflexivity].
  destruct (split "|" rawLine) as [|ts [|ec [|id [|ag [|se details]]]]] eqn:Hsplit;
    try (left; reflexivity).
  destruct (truthy ts) eqn:Hts; cbn [negb orb]; [|left; reflexivity].
  destruct (match_classes Beads.ISO_8601_PREFIX ts) eqn:Hiso; cbn [negb];
    [|left; reflexivity].
  destruct (truthy ec) eqn:Hec; cbn [negb orb]; [|left; reflexivity].
  destruct (includes "." ec) eqn:Hdot; cbn [negb]; [|left; reflexivity].
  right. exists ts, ec, id, ag, se, details.
  apply truthy_iff in Hraw, Hec.
  repeat split; auto.
Qed.

End ParseFacts.

(** A line that [parse] returned, and the state it left. *)
Lemma parse_returns (rawLine : string) (st : State)
  (line : ActionableLogLine) (st1 : State) :
  Beads.parse rawLine st = (Normal (Some line), st1) ->
  exists c : Beads.BeadsContext,
    line = beads_line rawLine c (next_loc st) (S (next_loc st)) /\
    st1 = after_parse st c /\
    Beads.ctx_issueId c <> "" /\
    Beads.ctx_eventCode c <> "".
Proof.
  intros H.
  destruct (parse_cases rawLine st) as [E | (ts & ec & id & ag & se & de & E)].
  - rewrite E in H. discriminate.
  - cbv zeta in E. destruct E as (_ & _ & _ & Hec & _ & E). rewrite E in H.
    injection H as <- <-. eexists. repeat split; auto.
    simpl. unfold or_else.
    destruct (truthy id) eqn:Hid; [now apply truthy_iff|discriminate].
Qed.

Lemma update_same {A} (f : loc -> A) (l : loc) (a : A) : update f l a l = a.
Proof. unfold update. now rewrite Nat.eqb_refl. Qed.

(** C1. Every string that violates the beads grammar (empty, white space
    only, fewer than five fields when split at the delimiter, a first
    field without the ISO-8601 date-time prefix, a second field that is
    empty or holds no dot) makes [BeadsAdapter.parse] return [null] and
    leave the process as it was; and on every string [parse] completes
    normally, it never throws. *)
Theorem C1_parse_rejects_malformed (rawLine : string) (st : State) :
  (violates_grammar rawLine -> Beads.parse rawLine st = (Normal None, st)) /\
  (exists result st', Beads.parse rawLine st = (Normal result, st')).
Proof.
  destruct (parse_cases rawLine st)
    as [E | (ts & ec & id & ag & se & de & E)].
  - split; [intros _; exact E | now exists None, st].
  - cbv zeta in E. destruct E as (Hraw & Hsplit & Hiso & Hec & Hdot & E).
    split; [|eauto].
    unfold violates_grammar, field. rewrite Hsplit. simpl.
    intros [V | [V | [V | [V | [V | V]]]]].
    + contradiction.
    + apply blank_pipe_free, (split_without_separator "|") in V.
      rewrite V in Hsplit. discriminate.
    + lia.
    + apply iso_prefix_iff in Hiso. contradiction.
    + contradiction.
    + apply includes_dot_iff in Hdot. contradiction.
Qed.

Lemma C1_parse_rejects_malformed_witness :
  Beads.parse "2025-01-15T15:04:03Z|bd.issue.create|bd-1"
    (initial_state bd_echo)
  = (Normal None, initial_state bd_echo).
Proof.
  apply (proj1 (C1_parse_rejects_malformed
                  "2025-01-15T15:04:03Z|bd.issue.create|bd-1"
                  (initial_state bd_echo))).
  right; right; left. simpl. lia.
Defined.

(** C2. Every string accepted by the beads grammar (five or more fields
    joined by the delimiter, the first with the ISO-8601 prefix, the second
    holding a dot) makes [BeadsAdapter.parse] return a line whose [message]
    is the event code, whose [raw] is the input as it came, and whose
    [source.id] is the entity id field, or ["none"] when that field is
    empty. *)
Theorem C2_parse_accepts_wellformed
  (timestamp eventCode issueId agentId sessionId : string)
  (detailParts : list string) (st : State) :
  Forall pipe_free
    (timestamp :: eventCode :: issueId :: agentId :: sessionId
       :: detailParts) ->
  iso_prefixed timestamp ->
  has_dot eventCode ->
  let rawLine :=
    join "|" (timestamp :: eventCode :: issueId :: agentId :: sessionId
                :: detailParts) in
  exists line st',
    Beads.parse rawLine st = (Normal (Some line), st') /\
    message line = eventCode /\
    raw line = rawLine /\
    src_id (sources st' (source line))
      = (if String.eqb issueId "" then "none" else issueId).
Proof.
  intros Hfree Hiso Hdot rawLine.
  assert (Hsplit : split "|" rawLine
                   = timestamp :: eventCode :: issueId :: agentId
                       :: sessionId :: detailParts)
    by (apply split_join; [discriminate | exact Hfree]).
  assert (Hraw : truthy rawLine = true).
  { apply truthy_iff. intros E. rewrite E in Hsplit. discriminate. }
  pose proof (iso_prefixed_nonempty Hiso) as Hts. apply truthy_iff in Hts.
  pose proof (has_dot_nonempty Hdot) as Hec. apply truthy_iff in Hec.
  apply iso_prefix_iff in Hiso. apply includes_dot_iff in Hdot.
  unfold Beads.parse. rewrite Hraw, Hsplit, Hts, Hiso, Hec, Hdot.
  cbn [negb orb].
  eexists _, _. split; [reflexivity|].
  cbn [message raw source sources Beads.ctx_eventCode Beads.ctx_issueId].
  repeat split. rewrite update_same. cbn [src_id].
  unfold or_else at 2. unfold truthy at 1.
  destruct (String.eqb_spec issueId "") as [->|Hne]; cbn [negb].
  - reflexivity.
  - now apply or_else_nonempty.
Qed.

Lemma C2_parse_accepts_wellformed_witness :
  exists line st',
    Beads.parse
      "2025-01-15T15:04:03.456Z|bd.issue.create||steve|sess-abc123|title=A|B"
      (initial_state bd_echo)
    = (Normal (Some line), st') /\
    message line = "bd.issue.create" /\
    raw line
    = "2025-01-15T15:04:03.456Z|bd.issue.create||steve|sess-abc123|title=A|B" /\
    src_id (sources st' (source line)) = "none".
Proof.
  apply (@C2_parse_accepts_wellformed
           "2025-01-15T15:04:03.456Z" "bd.issue.create" "" "steve"
           "sess-abc123" ["title=A"; "B"] (initial_state bd_echo)).
  - repeat constructor.
  - exists "2025", "01", "15", "15:04:03.456Z".
    repeat split; reflexivity.
  - exists "bd", "issue.create". reflexivity.
Defined.

(* ================================================================== *)
(** * Facts about [Map] *)
(* ================================================================== *)

Section JsMapFacts.

Variable V : Type.
Implicit Types (m : JsMap.t V) (k : string) (v : V).

Lemma has_iff_key m k : JsMap.has m k = true <-> In k (JsMap.keys m).
Proof.
  induction m as [|[k' v'] m IH]; simpl; [intuition discriminate|].
  rewrite orb_true_iff, IH.
  destruct (String.eqb_spec k' k); intuition congruence.
Qed.

Lemma has_false_iff m k : JsMap.has m k = false <-> ~ In k (JsMap.keys m).
Proof.
  rewrite <- has_iff_key. destruct (JsMap.has m k); intuition congruence.
Qed.

Lemma get_set m k v k' :
  JsMap.get (JsMap.set m k v) k'
  = if String.eqb k k' then Some v else JsMap.get m k'.
Proof.
  induction m as [|[k0 v0] m IH]; simpl.
  - reflexivity.
  - destruct (String.eqb_spec k0 k) as [->|Hk0]; simpl.
    + destruct (String.eqb_spec k k'); reflexivity.
    + rewrite IH. destruct (String.eqb_spec k0 k') as [->|]; [|reflexivity].
      destruct (String.eqb_spec k k'); congruence.
Qed.

(** [set] on a key that is present changes neither the keys nor their order. *)
Lemma keys_set_present m k v :
  JsMap.has m k = true -> JsMap.keys (JsMap.set m k v) = JsMap.keys m.
Proof.
  induction m as [|[k0 v0] m IH]; simpl; [discriminate|].
  destruct (String.eqb_spec k0 k) as [->|Hk0]; simpl; intros H.
  - reflexivity.
  - now rewrite IH.
Qed.

(** [set] on a new key appends the entry. *)
Lemma set_absent m k v :
  JsMap.has m k = false -> JsMap.set m k v = m ++ [(k, v)].
Proof.
  induction m as [|[k0 v0] m IH]; simpl; [reflexivity|].
  destruct (String.eqb_spec k0 k) as [->|Hk0]; simpl; intros H.
  - discriminate.
  - now rewrite IH.
Qed.

(** [set] on a present key, all keys being distinct: the one entry of that
    key takes the new value where it stands. *)
Lemma values_set_present m k v :
  NoDup (JsMap.keys m) ->
  JsMap.has m k = true ->
  JsMap.set m k v
  = map (fun entry => if String.eqb (fst entry) k then (fst entry, v) else entry) m.
Proof.
  induction m as [|[k0 v0] m IH]; simpl; [discriminate|].
  intros Hnd H. inversion Hnd as [|? ? Hnotin Hnd']; subst.
  destruct (String.eqb_spec k0 k) as [->|Hk0]; simpl in *.
  - f_equal. clear IH H Hnd Hnd'.
    induction m as [|[k1 v1] m IH]; simpl in *; [reflexivity|].
    destruct (String.eqb_spec k1 k) as [->|]; [tauto|].
    f_equal. apply IH. tauto.
  - f_equal. now apply IH.
Qed.

Lemma keys_set_nodup m k v :
  NoDup (JsMap.keys m) -> NoDup (JsMap.keys (JsMap.set m k v)).
Proof.
  intros Hnd. destruct (JsMap.has m k) eqn:H.
  - now rewrite keys_set_present.
  - rewrite set_absent by assumption. unfold JsMap.keys.
    rewrite map_app. simpl.
    apply has_false_iff in H.
    apply NoDup_app; [assumption|repeat constructor; simpl; tauto|].
    intros x Hx [<-|[]]. contradiction.
Qed.

(** With distinct keys, what [get] finds is the value listed for the key. *)
Lemma get_of_entry m k v :
  NoDup (JsMap.keys m) -> In (k, v) m -> JsMap.get m k = Some v.
Proof.
  induction m as [|[k0 v0] m IH]; simpl; [tauto|].
  intros Hnd [E | Hin]; inversion Hnd as [|? ? Hnotin Hnd']; subst.
  - injection E as -> ->. now rewrite String.eqb_refl.
  - destruct (String.eqb_spec k0 k) as [->|]; [|now apply IH].
    exfalso. apply Hnotin. change k with (fst (k, v)). now apply in_map.
Qed.

End JsMapFacts.

(* ================================================================== *)
(** * The registry after a sequence of [register] calls *)
(* ================================================================== *)

Lemma in_first_registrations (ty : string) (types : list string) :
  In ty (first_registrations types) <-> In ty types.
Proof.
  induction types as [|ty0 types IH]; simpl; [tauto|].
  rewrite filter_In, IH, negb_true_iff.
  destruct (String.eqb_spec ty ty0); intuition congruence.
Qed.

(** One more call: a type seen before stays where it is, a new one goes to
    the end. *)
Lemma first_registrations_snoc (types : list string) (ty : string) :
  first_registrations (types ++ [ty])
  = if existsb (String.eqb ty) types then first_registrations types
    else first_registrations types ++ [ty].
Proof.
  induction types as [|ty0 types IH]; simpl; [reflexivity|].
  rewrite IH.
  destruct (String.eqb_spec ty ty0) as [->|Hne]; simpl.
  - destruct (existsb (String.eqb ty0) types); [reflexivity|].
    rewrite filter_app. simpl. rewrite String.eqb_refl. simpl.
    now rewrite app_nil_r.
  - destruct (existsb (String.eqb ty) types); [reflexivity|].
    rewrite filter_app. simpl.
    destruct (String.eqb_spec ty ty0); [contradiction|reflexivity].
Qed.

Lemma existsb_eqb_iff (ty : string) (types : list string) :
  existsb (String.eqb ty) types = true <-> In ty types.
Proof.
  rewrite existsb_exists. split.
  - intros (x & Hin & E). apply String.eqb_eq in E. now subst.
  - intros Hin. exists ty. now rewrite String.eqb_refl.
Qed.

Lemma register_all_snoc (calls : list SourceAdapter) (adapter : SourceAdapter) :
  Registry.register_all (calls ++ [adapter])
  = snd (Registry.register (Registry.register_all calls) adapter).
Proof.
  unfold Registry.register_all. now rewrite fold_left_app.
Qed.

Lemma last_registered_snoc (calls : list SourceAdapter)
  (adapter : SourceAdapter) (type : string) :
  last_registered (calls ++ [adapter]) type
  = if String.eqb (adapter_type adapter) type then Some adapter
    else last_registered calls type.
Proof.
  unfold last_registered. rewrite rev_app_distr. reflexivity.
Qed.

Lemma last_registered_type (calls : list SourceAdapter) (type : string)
  (adapter : SourceAdapter) :
  last_registered calls type = Some adapter -> adapter_type adapter = type.
Proof.
  intros H. apply find_some in H. now apply String.eqb_eq.
Qed.

(** What holds of the registry's map after any sequence of calls. *)
Lemma registry_invariant (calls : list SourceAdapter) :
  let m := Registry.adapters (Registry.register_all calls) in
  NoDup (JsMap.keys m) /\
  JsMap.keys m = first_registrations (map adapter_type calls) /\
  (forall type, JsMap.get m type = last_registered calls type).
Proof.
  induction calls as [|adapter calls IH] using rev_ind.
  - simpl. repeat split; constructor.
  - destruct IH as (Hnd & Hkeys & Hget).
    rewrite register_all_snoc. cbn [Registry.register snd Registry.adapters].
    set (m := Registry.adapters (Registry.register_all calls)) in *.
    cbv zeta. split; [|split].
    + now apply keys_set_nodup.
    + rewrite map_app. cbn [map]. rewrite first_registrations_snoc.
      destruct (JsMap.has m (adapter_type adapter)) eqn:Hhas.
      * rewrite keys_set_present by assumption.
        apply (proj1 (has_iff_key _ _)) in Hhas. rewrite Hkeys in Hhas.
        apply (proj1 (in_first_registrations _ _)) in Hhas.
        apply (proj2 (existsb_eqb_iff _ _)) in Hhas.
        now rewrite Hhas.
      * rewrite set_absent by assumption.
        unfold JsMap.keys. rewrite map_app. cbn [map fst].
        fold (JsMap.keys m). rewrite Hkeys.
        destruct (existsb (String.eqb (adapter_type adapter))
                    (map adapter_type calls)) eqn:Hex; [|reflexivity].
        apply (proj1 (existsb_eqb_iff _ _)) in Hex.
        apply (proj2 (in_first_registrations _ _)) in Hex.
        rewrite <- Hkeys in Hex. apply (proj2 (has_iff_key _ _)) in Hex.
        congruence.
    + intros type. now rewrite get_set, last_registered_snoc, Hget.
Qed.

(** The values of the map are what [get] returns for the keys. *)
Lemma values_by_get (V : Type) (m : JsMap.t V) :
  NoDup (JsMap.keys m) ->
  map Some (JsMap.values m) = map (JsMap.get m) (JsMap.keys m).
Proof.
  intros Hnd.
  assert (H : forall entry, In entry m -> JsMap.get m (fst entry) = Some (snd entry)).
  { intros [k v] Hin. now apply get_of_entry. }
  revert H. generalize (JsMap.get m).
  clear Hnd. induction m as [|[k v] m IH]; simpl; intros g H; [reflexivity|].
  pose proof (H (k, v) (or_introl eq_refl)) as E. simpl in E. rewrite E.
  f_equal. apply IH.
  intros entry Hin. apply H. now right.
Qed.

Lemma registered_adapter_is_current (calls : list SourceAdapter)
  (adapter : SourceAdapter) :
  let r := Registry.register_all calls in
  In adapter (JsMap.values (Registry.adapters r)) ->
  Registry.get r (adapter_type adapter) = Some adapter.
Proof.
  intros r Hin. destruct (registry_invariant calls) as (Hnd & Hkeys & Hget).
  fold r in Hnd, Hkeys, Hget.
  apply in_map_iff in Hin. destruct Hin as ([k v] & <- & Hin). simpl.
  pose proof (get_of_entry _ _ _ Hnd Hin) as E.
  assert (Hty : adapter_type v = k).
  { rewrite Hget in E. now apply last_registered_type in E. }
  unfold Registry.get. now rewrite Hty.
Qed.

(** The loop of [parse] is the trial of the adapters in order. *)
Lemma try_adapters_first_match (rawLine : string)
  (candidates : list SourceAdapter) (st : State) :
  first_match rawLine candidates st
    (fst (Registry.try_adapters candidates rawLine st))
    (snd (Registry.try_adapters candidates rawLine st)).
Proof.
  revert st. induction candidates as [|adapter rest IH]; intros st; simpl.
  - constructor.
  - unfold bind.
    destruct (adapter_parse adapter rawLine st) as [[[line|]|e] st1] eqn:E; simpl.
    + now apply fm_found.
    + eapply fm_null; [exact E|apply IH].
    + now apply fm_thrown.
Qed.

(** The trial is a function of the adapters and the state. *)
Lemma first_match_deterministic (rawLine : string)
  (candidates : list SourceAdapter) (st : State)
  (o1 o2 : Completion (option ActionableLogLine)) (s1 s2 : State) :
  first_match rawLine candidates st o1 s1 ->
  first_match rawLine candidates st o2 s2 ->
  o1 = o2 /\ s1 = s2.
Proof.
  intros H1. revert o2 s2.
  induction H1; intros o2 s2 H2; inversion H2; subst;
    try (split; congruence);
    try match goal with
        | A : adapter_parse ?a ?l ?s = _, B : adapter_parse ?a ?l ?s = _ |- _ =>
            rewrite A in B; try discriminate B; injection B as ?; subst
        end; auto.
Qed.

Lemma entry_key_is_type (calls : list SourceAdapter)
  (entry : string * SourceAdapter) :
  In entry (Registry.adapters (Registry.register_all calls)) ->
  fst entry = adapter_type (snd entry).
Proof.
  intros Hin. destruct (registry_invariant calls) as (Hnd & _ & Hget).
  destruct entry as [k v]. simpl.
  pose proof (get_of_entry _ _ _ Hnd Hin) as E.
  rewrite Hget in E. now apply last_registered_type in E.
Qed.

(** When every type is registered once, the adapters are tried in the
    order of the calls. *)
Lemma values_of_distinct_calls (calls : list SourceAdapter) :
  NoDup (map adapter_type calls) ->
  JsMap.values (Registry.adapters (Registry.register_all calls)) = calls.
Proof.
  induction calls as [|adapter calls IH] using rev_ind; intros Hnd.
  - reflexivity.
  - rewrite map_app in Hnd. cbn [map] in Hnd.
    apply NoDup_remove in Hnd. rewrite app_nil_r in Hnd.
    destruct Hnd as [Hnd Hnew].
    destruct (registry_invariant calls) as (_ & Hkeys & _).
    rewrite register_all_snoc. cbn [Registry.register snd Registry.adapters].
    rewrite set_absent.
    + unfold JsMap.values in *. rewrite map_app, IH by assumption. reflexivity.
    + apply has_false_iff. cbv zeta in Hkeys. rewrite Hkeys.
      now rewrite in_first_registrations.
Qed.

Lemma has_registered (calls : list SourceAdapter) (type : string) :
  JsMap.has (Registry.adapters (Registry.register_all calls)) type
  = existsb (String.eqb type) (map adapter_type calls).
Proof.
  destruct (registry_invariant calls) as (_ & Hkeys & _). cbv zeta in Hkeys.
  apply eq_true_iff_eq.
  now rewrite has_iff_key, Hkeys, in_first_registrations, existsb_eqb_iff.
Qed.

Lemma get_in_values (V : Type) (m : JsMap.t V) (k : string) (v : V) :
  JsMap.get m k = Some v -> In v (JsMap.values m).
Proof.
  induction m as [|[k0 v0] m IH]; simpl; [discriminate|].
  destruct (String.eqb k0 k); [intros [= ->]; now left|].
  intros E. right. now apply IH.
Qed.

(** The adapters stand in the trial order where their types stand in
    [types]. *)
Lemma tried_types (calls : list SourceAdapter) :
  let r := Registry.register_all calls in
  map adapter_type (JsMap.values (Registry.adapters r)) = Registry.types r.
Proof.
  intros r. unfold JsMap.values, Registry.types, JsMap.keys.
  rewrite map_map. apply map_ext_in. intros entry Hin.
  symmetry. now apply (entry_key_is_type calls).
Qed.

(** [parse] completes as the trial of the map's values does. *)
Lemma parse_is_trial (r : Registry.DefaultAdapterRegistry) (rawLine : string)
  (st : State) (outcome : Completion (option ActionableLogLine))
  (st' : State) :
  first_match rawLine (JsMap.values (Registry.adapters r)) st outcome st' <->
  Registry.parse r rawLine st = (outcome, st').
Proof.
  pose proof (try_adapters_first_match rawLine
                (JsMap.values (Registry.adapters r)) st) as Hrun.
  change (Registry.try_adapters (JsMap.values (Registry.adapters r)) rawLine st)
    with (Registry.parse r rawLine st) in Hrun.
  split.
  - intros Hfm.
    destruct (first_match_deterministic Hrun Hfm) as [<- <-].
    now destruct (Registry.parse r rawLine st).
  - intros E. now rewrite E in Hrun.
Qed.

(** Registering under a type that is present: the new adapter takes the
    place of the old one. *)
Lemma register_again (calls : list SourceAdapter) (adapter : SourceAdapter) :
  let r := Registry.register_all calls in
  let r' := snd (Registry.register r adapter) in
  JsMap.has (Registry.adapters r) (adapter_type adapter) = true ->
  Registry.types r' = Registry.types r /\
  JsMap.values (Registry.adapters r')
  = map (fun a => if String.eqb (adapter_type a) (adapter_type adapter)
                  then adapter else a)
        (JsMap.values (Registry.adapters r)).
Proof.
  intros r r' Hhas. subst r'.
  destruct (registry_invariant calls) as (Hnd & _ & _). fold r in Hnd.
  cbn [Registry.register snd Registry.adapters]. split.
  - unfold Registry.types. cbn [Registry.adapters].
    now apply keys_set_present.
  - rewrite values_set_present by assumption.
    unfold JsMap.values. rewrite !map_map.
    apply map_ext_in. intros entry Hin.
    rewrite (entry_key_is_type calls entry Hin).
    now destruct (String.eqb (adapter_type (snd entry)) (adapter_type adapter)).
Qed.

(** C3. After any sequence of [register] calls, [parse] tries the
    registered adapters in order (the order of the calls when every type
    was registered once) and completes like the first adapter that does
    not return [null]; it returns [null] on an empty registry and when
    every adapter returns [null]; [get] returns the adapter of the last
    call for a type, the adapters tried are those that [get] returns, so a
    replaced adapter is not used again; and [types] lists no name twice.
    [types] lists exactly the type names that were registered, and the
    adapters are tried in the order of [types]: the adapter that stands
    for a type is the one of the last call for it.  Registering under a
    type that is present changes neither [types] nor the order: from then
    on [parse] tries the new adapter where the old one stood. *)
Theorem C3_registry_parse_and_replace (calls : list SourceAdapter)
  (rawLine : string) (st : State) :
  let r := Registry.register_all calls in
  let tried := JsMap.values (Registry.adapters r) in
  (forall outcome st',
      first_match rawLine tried st outcome st' <->
      Registry.parse r rawLine st = (outcome, st')) /\
  (NoDup (map adapter_type calls) -> tried = calls) /\
  Registry.parse Registry.create rawLine st = (Normal None, st) /\
  ((forall adapter st', In adapter tried ->
      adapter_parse adapter rawLine st' = (Normal None, st')) ->
   Registry.parse r rawLine st = (Normal None, st)) /\
  (forall type, Registry.get r type = last_registered calls type) /\
  (forall adapter,
      Registry.get (snd (Registry.register r adapter)) (adapter_type adapter)
      = Some adapter) /\
  (forall adapter, In adapter tried ->
      Registry.get r (adapter_type adapter) = Some adapter) /\
  NoDup (Registry.types r) /\
  (forall type,
      In type (Registry.types r) <-> In type (map adapter_type calls)) /\
  map adapter_type tried = Registry.types r /\
  (forall type adapter,
      last_registered calls type = Some adapter -> In adapter tried) /\
  (forall adapter,
      In (adapter_type adapter) (map adapter_type calls) ->
      let r' := snd (Registry.register r adapter) in
      let tried' :=
        map (fun a => if String.eqb (adapter_type a) (adapter_type adapter)
                      then adapter else a) tried in
      Registry.types r' = Registry.types r /\
      In adapter tried' /\
      forall outcome st',
        first_match rawLine tried' st outcome st' <->
        Registry.parse r' rawLine st = (outcome, st')).
Proof.
  intros r tried.
  destruct (registry_invariant calls) as (Hnd & Hkeys & Hget).
  fold r in Hnd, Hkeys, Hget.
  split; [intros outcome st'; apply parse_is_trial|].
  split; [apply values_of_distinct_calls|].
  split; [reflexivity|].
  split.
  { intros Hnull. unfold Registry.parse. fold tried.
    clear Hnd Hkeys Hget. revert st.
    induction tried as [|adapter rest IH]; intros st; simpl; [reflexivity|].
    unfold bind. rewrite Hnull by now left.
    apply IH. intros a st' Hin. apply Hnull. now right. }
  split; [exact Hget|].
  split.
  { intros adapter. unfold Registry.get.
    cbn [Registry.register snd Registry.adapters].
    now rewrite get_set, String.eqb_refl. }
  split; [apply registered_adapter_is_current|].
  split; [exact Hnd|].
  split.
  { intros type. unfold Registry.types. rewrite Hkeys.
    apply in_first_registrations. }
  split; [apply tried_types|].
  split.
  { intros type adapter E. rewrite <- Hget in E.
    now apply get_in_values in E. }
  intros adapter Hin r' tried'.
  assert (Hhas : JsMap.has (Registry.adapters r) (adapter_type adapter) = true).
  { unfold r. rewrite has_registered. now apply existsb_eqb_iff. }
  destruct (register_again calls adapter Hhas) as [Htypes Hvalues].
  fold r in Htypes, Hvalues. fold tried in Hvalues. fold tried' in Hvalues.
  split; [exact Htypes|]. split.
  - apply (proj1 (has_iff_key _ _)) in Hhas.
    change (JsMap.keys (Registry.adapters r)) with (Registry.types r) in Hhas.
    pose proof (tried_types calls) as Ht. cbv zeta in Ht. fold r tried in Ht.
    rewrite <- Ht in Hhas. apply in_map_iff in Hhas. destruct Hhas as (a & Ha & Hina).
    unfold tried'. apply in_map_iff. exists a. split; [|exact Hina].
    now rewrite Ha, String.eqb_refl.
  - intros outcome st'. rewrite <- Hvalues. apply parse_is_trial.
Qed.

Lemma C3_registry_parse_and_replace_witness :
  let calls := [null_adapter "format-a" "A"; Beads.BeadsAdapter] in
  let r := Registry.register_all calls in
  NoDup (map adapter_type calls) /\
  JsMap.values (Registry.adapters r) = calls /\
  (forall adapter st', In adapter calls ->
      adapter_parse adapter "not a beads line" st' = (Normal None, st')) /\
  Registry.parse r "not a beads line" (initial_state bd_echo)
  = (Normal None, initial_state bd_echo).
Proof.
  intros calls r.
  pose proof (C3_registry_parse_and_replace calls "not a beads line"
                (initial_state bd_echo)) as H.
  cbv zeta in H. fold r in H.
  destruct H as (_ & Horder & _ & Hnull & _).
  assert (Hnd : NoDup (map adapter_type calls)).
  { repeat constructor; simpl; intuition discriminate. }
  assert (Hall : forall adapter st', In adapter calls ->
             adapter_parse adapter "not a beads line" st' = (Normal None, st')).
  { intros adapter st' [<-|[<-|[]]]; reflexivity. }
  split; [exact Hnd|]. split; [exact (Horder Hnd)|]. split; [exact Hall|].
  apply Hnull. rewrite (Horder Hnd). exact Hall.
Defined.

(** C9. After any sequence of [register] calls, [types] and the trial
    order of [parse] follow the first registration of each type name, each
    place holding the adapter of the last call for that name: [parse]
    completes as the trial of these adapters in this order does.
    Registering again under a name that is present puts the new adapter
    where the old one stood and moves nothing, and [parse] then tries
    the adapters in that order. *)
Theorem C9_registry_order_is_first_registration (calls : list SourceAdapter)
  (adapter : SourceAdapter) :
  let r := Registry.register_all calls in
  let order := first_registrations (map adapter_type calls) in
  Registry.types r = order /\
  map Some (JsMap.values (Registry.adapters r))
  = map (last_registered calls) order /\
  (JsMap.has (Registry.adapters r) (adapter_type adapter) = true ->
   let r' := snd (Registry.register r adapter) in
   Registry.types r' = Registry.types r /\
   JsMap.values (Registry.adapters r')
   = map (fun a => if String.eqb (adapter_type a) (adapter_type adapter)
                   then adapter else a)
         (JsMap.values (Registry.adapters r))) /\
  (forall tried rawLine st outcome st',
      map Some tried = map (last_registered calls) order ->
      (first_match rawLine tried st outcome st' <->
       Registry.parse r rawLine st = (outcome, st')) /\
      (JsMap.has (Registry.adapters r) (adapter_type adapter) = true ->
       first_match rawLine
         (map (fun a => if String.eqb (adapter_type a) (adapter_type adapter)
                        then adapter else a) tried)
         st outcome st' <->
       Registry.parse (snd (Registry.register r adapter)) rawLine st
       = (outcome, st'))).
Proof.
  intros r order.
  destruct (registry_invariant calls) as (Hnd & Hkeys & Hget).
  fold r in Hnd, Hkeys, Hget. fold order in Hkeys.
  assert (Hvalues : map Some (JsMap.values (Registry.adapters r))
                    = map (last_registered calls) order).
  { rewrite values_by_get by assumption. rewrite Hkeys.
    apply map_ext. exact Hget. }
  split; [exact Hkeys|]. split; [exact Hvalues|]. split.
  - intros Hhas r'. subst r'.
    cbn [Registry.register snd Registry.adapters]. split.
    + unfold Registry.types. cbn [Registry.adapters].
      now apply keys_set_present.
    + rewrite values_set_present by assumption.
      unfold JsMap.values. rewrite !map_map.
      apply map_ext_in. intros entry Hin.
      rewrite (entry_key_is_type calls entry Hin).
      now destruct (String.eqb (adapter_type (snd entry)) (adapter_type adapter)).
  - intros tried rawLine st outcome st' Htried.
    assert (E : tried = JsMap.values (Registry.adapters r)).
    { rewrite <- Hvalues in Htried. clear - Htried.
      revert Htried. generalize (JsMap.values (Registry.adapters r)).
      induction tried as [|a tried IH]; intros [|b others]; simpl;
        try discriminate; [reflexivity|].
      intros [= -> Hrest]. f_equal. now apply IH. }
    subst tried. split; [apply parse_is_trial|].
    intros Hhas. destruct (register_again calls adapter Hhas) as [_ Hv].
    fold r in Hv. rewrite <- Hv. apply parse_is_trial.
Qed.

Lemma C9_registry_order_is_first_registration_witness :
  let first := null_adapter "same-type" "first" in
  let second := null_adapter "same-type" "second" in
  let r := Registry.register_all [first; Beads.BeadsAdapter] in
  let r' := snd (Registry.register r second) in
  JsMap.has (Registry.adapters r) (adapter_type second) = true /\
  Registry.types r' = ["same-type"; "beads"] /\
  JsMap.values (Registry.adapters r') = [second; Beads.BeadsAdapter].
Proof.
  intros first second r r'. split; [reflexivity|].
  exact (proj1 (proj2 (proj2 (C9_registry_order_is_first_registration
                                [first; Beads.BeadsAdapter] second)))
           eq_refl).
Defined.

(* ================================================================== *)
(** * The interpreter *)
(* ================================================================== *)


(** The context formatter reads the store and changes nothing. *)
Lemma formatContextForClaude_reads (line : ActionableLogLine) (st : State) :
  exists context,
    Interpreter.formatContextForClaude line st = (Normal context, st).
Proof.
  unfold Interpreter.formatContextForClaude, read_source, read_context,
    bind, gets, ret. simpl. eauto.
Qed.

(** The fallback branch of [interpret], from the state [st1] that
    [handleQuery] left. *)
Lemma fallback_branch (line : ActionableLogLine) (input : string)
  (h : list Event -> string -> string -> Settled Thrown) (st1 : State) :
  exists context,
    Interpreter.formatContextForClaude line st1 = (Normal context, st1) /\
    try_catch
      (context <- Interpreter.formatContextForClaude line ;;
       response <- Interpreter.call_handler h context input ;;
       ret {| handled := true; content := response;
              data := None; error := None |})
      (fun error =>
         err <- caught error "message" ;; ret (fallback_failed err)) st1
    = (match h (trace st1) context input with
       | Fulfilled response => Normal (fallback_answer response)
       | Rejected (ThrownObject e) => Normal (fallback_failed e)
       | Rejected (ThrownNullish k) => Throw (cannot_read k "message")
       end,
       record_event (EvFallback context input) st1).
Proof.
  destruct (formatContextForClaude_reads line st1) as (context & E).
  exists context. split; [exact E|].
  unfold try_catch, bind. rewrite E.
  unfold Interpreter.call_handler.
  destruct (h (trace st1) context input) as [response|[e|k]]; reflexivity.
Qed.

(** [interpret], one step at a time. *)
Lemma interpret_steps (line : ActionableLogLine) (input : string) (st : State) :
  Interpreter.interpret line input st
  = match handleQuery line input st with
    | (Throw e, st1) => (Throw e, st1)
    | (Normal result, st1) =>
        if handled result then (Normal result, st1)
        else
          match enabled (fallbackConfig st1),
                fallback_handler (fallbackConfig st1) with
          | true, Some h =>
              try_catch
                (context <- Interpreter.formatContextForClaude line ;;
                 response <- Interpreter.call_handler h context input ;;
                 ret {| handled := true; content := response;
                        data := None; error := None |})
                (fun error =>
                   err <- caught error "message" ;;
                   ret (fallback_failed err)) st1
          | _, _ => (Normal result, st1)
          end
    end.
Proof.
  unfold Interpreter.interpret. unfold bind at 1.
  destruct (handleQuery line input st) as [[result|e] st1]; [|reflexivity].
  destruct (handled result); [reflexivity|].
  unfold bind at 1. unfold gets. cbv beta iota.
  destruct (enabled (fallbackConfig st1));
    [destruct (fallback_handler (fallbackConfig st1))|]; reflexivity.
Qed.




(* ================================================================== *)
(** * The commands of a beads line *)
(* ================================================================== *)

Lemma bind_ret_run {A B} (a : A) (k : A -> M B) (st : State) :
  (x <- ret a ;; k x) st = k a st.
Proof. reflexivity. Qed.

Lemma bind_assoc_run {A B C} (c : M A) (k : A -> M B) (k' : B -> M C)
  (st : State) :
  (y <- (x <- c ;; k x) ;; k' y) st = (x <- c ;; y <- k x ;; k' y) st.
Proof. unfold bind. destruct (c st) as [[a|e] st']; reflexivity. Qed.

(** [runBdCommand] always completes normally, with the process text. *)
Lemma runBdCommand_completes (args : string) (st : State) :
  Beads.runBdCommand args st
  = (Normal (process_text st ("bd " ++ args)),
     record_event (EvExec ("bd " ++ args)) st).
Proof.
  unfold Beads.runBdCommand, try_catch, bind, Beads.execAsync, process_text.
  destruct (child_process st (trace st) ("bd " ++ args)); reflexivity.
Qed.

Lemma run_and_show (args : string) (st : State) :
  (content <- Beads.runBdCommand args ;; ret (Beads.handled_with content)) st
  = (Normal (Beads.handled_with (process_text st ("bd " ++ args))),
     record_event (EvExec ("bd " ++ args)) st).
Proof.
  unfold bind at 1. now rewrite runBdCommand_completes.
Qed.

Section StoreFrame.

(** Closure of [preserves_store] under the constructions of [M]. *)

Lemma preserves_ret {A} (a : A) : preserves_store (ret a).
Proof. intros st. now split. Qed.

Lemma preserves_throw {A} (e : JsError) : preserves_store (@throw A e).
Proof. intros st. now split. Qed.

Lemma preserves_gets {A} (f : State -> A) : preserves_store (gets f).
Proof. intros st. now split. Qed.

Lemma preserves_bind {A B} (c : M A) (k : A -> M B) :
  preserves_store c -> (forall a, preserves_store (k a)) ->
  preserves_store (bind c k).
Proof.
  intros Hc Hk st. unfold bind. specialize (Hc st).
  destruct (c st) as [[a|e] st']; simpl in *; [|exact Hc].
  destruct (Hk a st') as [Hs Hx]. destruct Hc as [Hs' Hx'].
  split; congruence.
Qed.

Lemma preserves_try_catch {A} (c : M A) (h : Thrown -> M A) :
  preserves_store c -> (forall e, preserves_store (h e)) ->
  preserves_store (try_catch c h).
Proof.
  intros Hc Hh st. unfold try_catch. specialize (Hc st).
  destruct (c st) as [[a|e] st']; simpl in *; [exact Hc|].
  destruct (Hh e st') as [Hs Hx]. destruct Hc as [Hs' Hx'].
  split; congruence.
Qed.

Lemma preserves_if {A} (b : bool) (c1 c2 : M A) :
  preserves_store c1 -> preserves_store c2 ->
  preserves_store (if b then c1 else c2).
Proof. now destruct b. Qed.

Lemma preserves_execAsync (command : string) :
  preserves_store (Beads.execAsync command).
Proof.
  intros st. unfold Beads.execAsync.
  destruct (child_process st (trace st) command); now split.
Qed.

Lemma preserves_call_handler
  (h : list Event -> string -> string -> Settled Thrown)
  (context input : string) :
  preserves_store (Interpreter.call_handler h context input).
Proof.
  intros st. unfold Interpreter.call_handler.
  destruct (h (trace st) context input); now split.
Qed.

Lemma preserves_caught (error : Thrown) (property : string) :
  preserves_store (caught error property).
Proof. destruct error; [apply preserves_ret|apply preserves_throw]. Qed.

Lemma preserves_receiver (v : option string) (method : string) :
  preserves_store (Beads.receiver v method).
Proof. destruct v; [apply preserves_ret|apply preserves_throw]. Qed.

Lemma preserves_configure (config : ClaudeFallbackConfig) :
  preserves_store (Interpreter.configureClaudeFallback config).
Proof. intros st. now split. Qed.

End StoreFrame.

Ltac frame :=
  repeat first
    [ apply preserves_ret | apply preserves_throw | apply preserves_gets
    | apply preserves_execAsync | apply preserves_call_handler
    | apply preserves_receiver | apply preserves_configure
    | apply preserves_caught
    | apply preserves_bind; [|intros ?]
    | apply preserves_try_catch; [|intros ?]
    | apply preserves_if ].

Lemma preserves_runBdCommand (args : string) :
  preserves_store (Beads.runBdCommand args).
Proof. unfold Beads.runBdCommand. frame. Qed.

(** No command handler of a beads line writes to the store. *)
Lemma beads_handler_preserves_store (context : loc) (cmd : Command)
  (params : option string) :
  In cmd (Beads.createBeadsCommands context) ->
  preserves_store (handler cmd params).
Proof.
  unfold Beads.createBeadsCommands.
  intros H. repeat (destruct H as [<- | H]); try contradiction;
    cbn [handler]; unfold read_context;
    repeat first [ apply preserves_runBdCommand | progress frame ].
Qed.

Lemma find_command_found (commands : list Command) (cmdName : option string)
  (params : string) (call : M QueryResult) :
  Beads.find_command commands cmdName params = Some call ->
  exists cmd, In cmd commands /\ call = handler cmd (Some params).
Proof.
  induction commands as [|cmd rest IH]; simpl; [discriminate|].
  destruct (strict_eq cmdName (name cmd) || Beads.aliases_include cmd cmdName).
  - intros E. injection E as <-. exists cmd. auto.
  - intros E. destruct (IH E) as (cmd' & Hin & ->). exists cmd'. auto.
Qed.

(** The loop finds the first command, in list order, that answers to the
    token. *)
Lemma find_command_is_find (commands : list Command) (token params : string) :
  Beads.find_command commands (Some token) params
  = option_map (fun cmd => handler cmd (Some params))
      (find (answers_to token) commands).
Proof.
  induction commands as [|cmd rest IH]; simpl; [reflexivity|].
  unfold answers_to at 1, Beads.aliases_include. simpl.
  rewrite (String.eqb_sym token (name cmd)).
  destruct (String.eqb (name cmd) token
            || existsb (fun a => String.eqb token a) (aliases cmd));
    [reflexivity|exact IH].
Qed.

Lemma beads_handleQuery_preserves_store (context : loc) (input : string) :
  preserves_store
    (Beads.line_handleQuery (Beads.createBeadsCommands context) input).
Proof.
  unfold Beads.line_handleQuery. cbv zeta.
  destruct (Beads.find_command _ _ _) as [call|] eqn:E.
  - apply find_command_found in E. destruct E as (cmd & Hin & ->).
    now apply beads_handler_preserves_store with (context := context).
  - apply preserves_ret.
Qed.

Lemma formatContextForClaude_preserves_store (line : ActionableLogLine) :
  preserves_store (Interpreter.formatContextForClaude line).
Proof.
  unfold Interpreter.formatContextForClaude, read_source, read_context. frame.
Qed.

(** [interpret] writes to the store only if [handleQuery] does. *)
Lemma interpret_preserves_store (line : ActionableLogLine) (input : string) :
  preserves_store (handleQuery line input) ->
  preserves_store (Interpreter.interpret line input).
Proof.
  intros Hq. unfold Interpreter.interpret.
  apply preserves_bind; [exact Hq|intros result].
  apply preserves_if; [apply preserves_ret|].
  apply preserves_bind; [apply preserves_gets|intros config].
  destruct (enabled config); [destruct (fallback_handler config)|];
    try apply preserves_ret.
  apply preserves_try_catch; [|intros e; frame].
  apply preserves_bind; [apply formatContextForClaude_preserves_store|].
  intros context. frame.
Qed.

Lemma run_call_preserves_store (context : loc) (line : ActionableLogLine)
  (c : Call) (st : State) :
  handleQuery line
  = Beads.line_handleQuery (Beads.createBeadsCommands context) ->
  sources (run_call line st c) = sources st /\
  contexts (run_call line st c) = contexts st.
Proof.
  intros Hline. destruct c as [input|config]; simpl.
  - apply interpret_preserves_store. rewrite Hline.
    apply beads_handleQuery_preserves_store.
  - now split.
Qed.

(** C6. For a line that [BeadsAdapter.parse] returned and every sequence
    of [interpret] calls on it, with any inputs, from any state of the
    process and with any fallback configurations set in between, the
    store holds the same objects afterwards: [line.source] has the same
    type, id and context reference, and the context object the same
    entries. *)
Theorem C6_interpret_leaves_source_unchanged (rawLine : string)
  (st0 : State) (line : ActionableLogLine) (st1 : State)
  (calls : list Call) (st : State) :
  Beads.parse rawLine st0 = (Normal (Some line), st1) ->
  sources (run_calls line calls st) = sources st /\
  contexts (run_calls line calls st) = contexts st /\
  source_snapshot (run_calls line calls st) line = source_snapshot st line.
Proof.
  intros Hparse. apply parse_returns in Hparse.
  destruct Hparse as (c & Hline & _).
  assert (Hq : handleQuery line
               = Beads.line_handleQuery
                   (Beads.createBeadsCommands (next_loc st0)))
    by (rewrite Hline; reflexivity).
  assert (H : sources (run_calls line calls st) = sources st /\
              contexts (run_calls line calls st) = contexts st).
  { unfold run_calls. revert st.
    induction calls as [|call calls IH]; intros st; simpl; [now split|].
    destruct (IH (run_call line st call)) as [Hs Hx].
    destruct (@run_call_preserves_store (next_loc st0) line call st Hq)
      as [Hs2 Hx2].
    split; congruence. }
  destruct H as [Hs Hx]. repeat split; try assumption.
  unfold source_snapshot. now rewrite Hs, Hx.
Qed.

Lemma C6_interpret_leaves_source_unchanged_witness :
  let st0 := initial_state bd_missing in
  let line := beads_line SAMPLE_TEXT SAMPLE_CONTEXT 0 1 in
  let st1 := after_parse st0 SAMPLE_CONTEXT in
  let calls :=
    [ CallInterpret "show";
      CallConfigure {| enabled := true;
                       fallback_handler := Some (constant_handler "resp") |};
      CallInterpret "why did this happen";
      CallInterpret "" ] in
  Beads.parse SAMPLE_TEXT st0 = (Normal (Some line), st1) /\
  sources (run_calls line calls st1) = sources st1 /\
  contexts (run_calls line calls st1) = contexts st1 /\
  source_snapshot (run_calls line calls st1) line = source_snapshot st1 line.
Proof.
  intros st0 line st1 calls. split; [reflexivity|].
  apply (@C6_interpret_leaves_source_unchanged SAMPLE_TEXT st0 line st1 calls st1).
  reflexivity.
Defined.

(** The entity id of a parsed line and the objects that [parse] created. *)
Lemma parsed_line_objects (rawLine : string) (c : Beads.BeadsContext)
  (st0 : State) :
  Beads.ctx_issueId c <> "" ->
  let line := beads_line rawLine c (next_loc st0) (S (next_loc st0)) in
  let st1 := after_parse st0 c in
  sources st1 (source line)
  = {| src_type := "beads"; src_id := Beads.ctx_issueId c;
       src_context := next_loc st0 |} /\
  contexts st1 (next_loc st0) = Beads.context_object c.
Proof.
  intros Hid line st1. subst line st1. cbn [source after_parse sources contexts].
  rewrite !update_same. now rewrite or_else_nonempty.
Qed.

(** C8. Every command handler of a line that [BeadsAdapter.parse]
    returned, run while the context object is as [parse] made it,
    completes normally with [handled: true]: either it calls no process,
    or it calls one and its [content] is the trimmed output when the
    process succeeds and the failure text ([stderr], else [message], else
    ["Command failed"]) when it fails.  The [show] and [deps] handlers of a
    line whose entity id is ["none"] call no process and answer with the
    informational message. *)
Theorem C8_handlers_never_throw (rawLine : string) (st0 : State)
  (line : ActionableLogLine) (st1 : State) (cmd : Command)
  (params : option string) (st : State) :
  Beads.parse rawLine st0 = (Normal (Some line), st1) ->
  In cmd (availableCommands line) ->
  contexts st (src_context (sources st1 (source line)))
  = contexts st1 (src_context (sources st1 (source line))) ->
  exists text st',
    handler cmd params st
    = (Normal {| handled := true; content := text;
                 data := None; error := None |}, st') /\
    (st' = st \/
     exists cmdline,
       st' = record_event (EvExec cmdline) st /\
       text = process_text st cmdline) /\
    ((name cmd = "show" \/ name cmd = "deps") ->
     src_id (sources st1 (source line)) = "none" ->
     st' = st /\ text = "No issue associated with this event").
Proof.
  intros Hparse Hin Hctx. apply parse_returns in Hparse.
  destruct Hparse as (c & -> & -> & Hid & Hec).
  destruct (parsed_line_objects rawLine c st0 Hid) as [Hsrc Hobj].
  cbv zeta in Hsrc, Hobj. rewrite Hsrc in *. cbn [src_context src_id] in *.
  rewrite Hobj in Hctx. clear Hsrc Hobj.
  cbn [availableCommands beads_line] in Hin.
  unfold Beads.createBeadsCommands in Hin.
  assert (Htruthy : truthy (Beads.ctx_issueId c) = true) by now apply truthy_iff.
  repeat (destruct Hin as [<- | Hin]); try contradiction;
    cbn [handler name]; unfold read_context, gets; unfold bind at 1;
    cbv beta iota; rewrite Hctx;
    cbn [prop Beads.context_object String.eqb Ascii.eqb Bool.eqb
           truthy_opt strict_eq interpolate];
    rewrite ?Htruthy; cbn [negb orb andb].
  all: try (destruct (String.eqb_spec (Beads.ctx_issueId c) "none")
              as [Enone|Enone];
            cbn [negb orb andb]).
  all: try (destruct (truthy_opt params)).
  all: try (destruct (truthy (Beads.ctx_sessionId c)); cbn [negb]).
  all: rewrite ?bind_assoc_run; cbn [Beads.receiver];
    rewrite ?bind_ret_run; rewrite ?run_and_show.
  all: eexists _, _; (split; [reflexivity|]); split;
    [ first [left; reflexivity | right; eexists; split; reflexivity] | ].
  all: intros Hname Hnone;
    first [ contradiction
          | destruct Hname as [F|F]; discriminate F
          | split; reflexivity ].
Qed.

Lemma C8_handlers_never_throw_witness :
  let st0 := initial_state bd_missing in
  let line := beads_line BOOTUP_TEXT BOOTUP_CONTEXT 0 1 in
  let st1 := after_parse st0 BOOTUP_CONTEXT in
  match availableCommands line with
  | show :: related :: _ =>
      Beads.parse BOOTUP_TEXT st0 = (Normal (Some line), st1) /\
      In related (availableCommands line) /\
      exists text st',
        handler related None st1
        = (Normal {| handled := true; content := text;
                     data := None; error := None |}, st') /\
        (st' = st1 \/
         exists cmdline,
           st' = record_event (EvExec cmdline) st1 /\
           text = process_text st1 cmdline) /\
        ((name related = "show" \/ name related = "deps") ->
         src_id (sources st1 (source line)) = "none" ->
         st' = st1 /\ text = "No issue associated with this event")
  | _ => False
  end.
Proof.
  intros st0 line st1.
  cbv [line beads_line availableCommands Beads.createBeadsCommands].
  split; [reflexivity|]. split; [right; left; reflexivity|].
  eapply (@C8_handlers_never_throw BOOTUP_TEXT st0 line st1 _ None st1).
  - reflexivity.
  - right; left; reflexivity.
  - reflexivity.
Defined.


(* ================================================================== *)
(** * Tokens of a query *)
(* ================================================================== *)

Lemma append_nil_r (s : string) : (s ++ "")%string = s.
Proof. induction s as [|c s IH]; simpl; [reflexivity|now rewrite IH]. Qed.

Lemma append_assoc (a b c : string) :
  ((a ++ b) ++ c)%string = (a ++ b ++ c)%string.
Proof. induction a as [|x a IH]; simpl; [reflexivity|now rewrite IH]. Qed.

Lemma append_nonempty_l (a b : string) : a <> "" -> (a ++ b)%string <> "".
Proof. destruct a; [congruence|discriminate]. Qed.

Lemma all_app (cl : ascii -> bool) (a b : string) :
  all cl (a ++ b) = all cl a && all cl b.
Proof.
  induction a as [|c a IH]; simpl; [reflexivity|].
  now rewrite IH, andb_assoc.
Qed.

Lemma lower_char_space (c : ascii) : is_space (lower_char c) = is_space c.
Proof.
  destruct c as [[] [] [] [] [] [] [] []]; reflexivity.
Qed.

Lemma lower_char_idempotent (c : ascii) :
  lower_char (lower_char c) = lower_char c.
Proof.
  destruct c as [[] [] [] [] [] [] [] []]; reflexivity.
Qed.

Lemma toLowerCase_idempotent (s : string) :
  toLowerCase (toLowerCase s) = toLowerCase s.
Proof.
  induction s as [|c s IH]; simpl; [reflexivity|].
  now rewrite lower_char_idempotent, IH.
Qed.

Lemma toLowerCase_trimStart (s : string) :
  trimStart (toLowerCase s) = toLowerCase (trimStart s).
Proof.
  induction s as [|c s IH]; simpl; [reflexivity|].
  rewrite lower_char_space. destruct (is_space c); [exact IH|reflexivity].
Qed.

Lemma toLowerCase_trimEnd (s : string) :
  trimEnd (toLowerCase s) = toLowerCase (trimEnd s).
Proof.
  induction s as [|c s IH]; simpl; [reflexivity|].
  rewrite IH, lower_char_space.
  destruct (trimEnd s); simpl; [destruct (is_space c)|]; reflexivity.
Qed.

(** Lower-casing before or after trimming gives the same string. *)
Lemma toLowerCase_trim (s : string) :
  trim (toLowerCase s) = toLowerCase (trim s).
Proof.
  unfold trim. now rewrite toLowerCase_trimStart, toLowerCase_trimEnd.
Qed.

Lemma trimStart_blank (s : string) : blank s -> trimStart s = "".
Proof.
  unfold blank. induction s as [|c s IH]; simpl; [reflexivity|].
  intros H. apply andb_true_iff in H. destruct H as [Hc Hs].
  rewrite Hc. now apply IH.
Qed.

Lemma trim_blank (s : string) : blank s -> trim s = "".
Proof.
  intros H. unfold trim. now rewrite trimStart_blank.
Qed.

Lemma split_ws_from_not_nil (in_run : bool) (cur s : string) :
  split_ws_from in_run cur s <> [].
Proof.
  revert in_run cur. induction s as [|c s IH]; intros in_run cur; simpl.
  - discriminate.
  - destruct (is_space c); [destruct in_run|]; try apply IH. discriminate.
Qed.

Lemma all_snoc (cl : ascii -> bool) (s : string) (c : ascii) :
  all cl s = true -> cl c = true -> all cl (s ++ String c "") = true.
Proof.
  induction s as [|d s IH]; simpl; intros Hs Hc.
  - now rewrite Hc.
  - apply andb_true_iff in Hs. destruct Hs as [Hd Hs].
    now rewrite Hd, IH.
Qed.

(** The scan of [split_ws_from] computes the pieces: outside a run of
    white space with [cur] collected, and inside a run that began after
    the piece [cur]. *)
Lemma split_ws_from_pieces (s : string) :
  (forall cur,
      all (fun c => negb (is_space c)) cur = true ->
      split_at_spaces (cur ++ s) (split_ws_from false cur s)) /\
  (forall cur run,
      all (fun c => negb (is_space c)) cur = true ->
      run <> "" -> all is_space run = true ->
      split_at_spaces (cur ++ run ++ s) (cur :: split_ws_from true "" s)).
Proof.
  induction s as [|c s [IHout IHin]]; split.
  - intros cur Hcur. rewrite append_nil_r. now constructor.
  - intros cur run Hcur Hne Hrun. simpl.
    apply sas_more; auto. now constructor.
  - intros cur Hcur. simpl. destruct (is_space c) eqn:Hc.
    + apply (IHin cur (String c "")); auto; [discriminate|].
      simpl. now rewrite Hc.
    + change (cur ++ String c s)%string
        with (cur ++ String c "" ++ s)%string.
      rewrite <- append_assoc. apply IHout.
      apply all_snoc; [assumption|now rewrite Hc].
  - intros cur run Hcur Hne Hrun. simpl. destruct (is_space c) eqn:Hc.
    + change (cur ++ run ++ String c s)%string
        with (cur ++ run ++ String c "" ++ s)%string.
      rewrite <- (append_assoc run). apply IHin; auto.
      * now apply append_nonempty_l.
      * rewrite all_app, Hrun. simpl. now rewrite Hc.
    + apply sas_more; auto.
      apply (IHout (String c "")). simpl. now rewrite Hc.
Qed.

Lemma split_ws_pieces (s : string) : split_at_spaces s (split_ws s).
Proof.
  exact (proj1 (split_ws_from_pieces s) "" eq_refl).
Qed.

(** C5. For a line that [BeadsAdapter.parse] returned, [handleQuery] trims
    and lower-cases the input (so the case of the input does not matter),
    splits it at white space, takes the first piece as the command name
    and the other pieces joined by single spaces as the parameter string,
    and runs the handler of the first command, in the order show, related,
    deps, category, session, before, after, whose name or alias is that
    name; when there is none it returns [{handled: false, content: "",
    error: "Unknown command: <name>. Try: show, related, deps, category,
    session, before, after"}] and does nothing else. *)
Theorem C5_handleQuery_dispatch (rawLine : string) (st0 : State)
  (line : ActionableLogLine) (st1 : State) (input : string) (st : State) :
  Beads.parse rawLine st0 = (Normal (Some line), st1) ->
  map name (availableCommands line) = BEADS_COMMAND_NAMES /\
  handleQuery line (toLowerCase input) st = handleQuery line input st /\
  exists token rest,
    split_at_spaces (toLowerCase (trim input)) (token :: rest) /\
    match find (answers_to token) (availableCommands line) with
    | Some cmd =>
        handleQuery line input st = handler cmd (Some (join " " rest)) st
    | None =>
        handleQuery line input st = (Normal (unknown_command token), st)
    end.
Proof.
  intros Hparse. apply parse_returns in Hparse.
  destruct Hparse as (c & -> & _).
  cbn [availableCommands handleQuery beads_line].
  split; [reflexivity|]. split.
  { unfold Beads.line_handleQuery.
    now rewrite toLowerCase_trim, toLowerCase_idempotent. }
  unfold Beads.line_handleQuery. cbv zeta.
  pose proof (split_ws_pieces (toLowerCase (trim input))) as Hpieces.
  destruct (split_ws (toLowerCase (trim input))) as [|token rest] eqn:Hsplit.
  { now apply split_ws_from_not_nil in Hsplit. }
  exists token, rest. split; [exact Hpieces|].
  cbn [hd_error tl]. rewrite find_command_is_find.
  destruct (find (answers_to token) _) as [cmd|]; reflexivity.
Qed.

Lemma C5_handleQuery_dispatch_witness :
  let st0 := initial_state bd_echo in
  let line := beads_line SAMPLE_TEXT SAMPLE_CONTEXT 0 1 in
  let st1 := after_parse st0 SAMPLE_CONTEXT in
  Beads.parse SAMPLE_TEXT st0 = (Normal (Some line), st1) /\
  map name (availableCommands line) = BEADS_COMMAND_NAMES /\
  handleQuery line (toLowerCase "  CAT  Bd  ") st1
  = handleQuery line "  CAT  Bd  " st1 /\
  exists token rest,
    split_at_spaces (toLowerCase (trim "  CAT  Bd  ")) (token :: rest) /\
    match find (answers_to token) (availableCommands line) with
    | Some cmd =>
        handleQuery line "  CAT  Bd  " st1
        = handler cmd (Some (join " " rest)) st1
    | None =>
        handleQuery line "  CAT  Bd  " st1
        = (Normal (unknown_command token), st1)
    end.
Proof.
  intros st0 line st1. split; [reflexivity|].
  apply (@C5_handleQuery_dispatch SAMPLE_TEXT st0 line st1 "  CAT  Bd  " st1).
  reflexivity.
Defined.

(** C10. For a line that [BeadsAdapter.parse] returned, [handleQuery] on
    an empty or white-space-only input returns [{handled: false, content:
    "", error: "Unknown command: . Try: show, related, deps, category,
    session, before, after"}] and does nothing else; so [interpret], when
    the fallback is enabled with a handler, calls the handler with that
    input and completes with what the fallback gives: the answer, the
    failure result, or the [TypeError] of its catch block when the handler
    rejected with [null] or [undefined]. *)
Theorem C10_empty_query_reaches_fallback (rawLine : string) (st0 : State)
  (line : ActionableLogLine) (st1 : State) (input : string) (st : State) :
  Beads.parse rawLine st0 = (Normal (Some line), st1) ->
  blank input ->
  handleQuery line input st
  = (Normal {| handled := false;
               content := "";
               data := None;
               error := Some "Unknown command: . Try: show, related, deps, category, session, before, after" |},
     st) /\
  (forall h,
      enabled (fallbackConfig st) = true ->
      fallback_handler (fallbackConfig st) = Some h ->
      exists context,
        Interpreter.formatContextForClaude line st = (Normal context, st) /\
        Interpreter.interpret line input st
        = (match h (trace st) context input with
           | Fulfilled response => Normal (fallback_answer response)
           | Rejected (ThrownObject e) => Normal (fallback_failed e)
           | Rejected (ThrownNullish k) => Throw (cannot_read k "message")
           end,
           record_event (EvFallback context input) st)).
Proof.
  intros Hparse Hblank. apply parse_returns in Hparse.
  destruct Hparse as (c & -> & _).
  assert (Hq : handleQuery
                 (beads_line rawLine c (next_loc st0) (S (next_loc st0)))
                 input st
               = (Normal (unknown_command ""), st)).
  { cbn [handleQuery beads_line]. unfold Beads.line_handleQuery.
    rewrite (trim_blank Hblank). reflexivity. }
  split; [exact Hq|].
  intros h Hen Hh. rewrite interpret_steps, Hq.
  cbn [handled unknown_command]. rewrite Hen, Hh.
  apply fallback_branch.
Qed.

Lemma C10_empty_query_reaches_fallback_witness :
  let st0 := initial_state bd_echo in
  let line := beads_line SAMPLE_TEXT SAMPLE_CONTEXT 0 1 in
  let st1 := after_parse st0 SAMPLE_CONTEXT in
  let st := with_fallback {| enabled := true;
                             fallback_handler := Some (constant_handler "resp") |}
                          st1 in
  Beads.parse SAMPLE_TEXT st0 = (Normal (Some line), st1) /\
  blank "   " /\
  handleQuery line "   " st
  = (Normal {| handled := false;
               content := "";
               data := None;
               error := Some "Unknown command: . Try: show, related, deps, category, session, before, after" |},
     st) /\
  (forall h,
      enabled (fallbackConfig st) = true ->
      fallback_handler (fallbackConfig st) = Some h ->
      exists context,
        Interpreter.formatContextForClaude line st = (Normal context, st) /\
        Interpreter.interpret line "   " st
        = (match h (trace st) context "   " with
           | Fulfilled response => Normal (fallback_answer response)
           | Rejected (ThrownObject e) => Normal (fallback_failed e)
           | Rejected (ThrownNullish k) => Throw (cannot_read k "message")
           end,
           record_event (EvFallback context "   ") st)).
Proof.
  intros st0 line st1 st. split; [reflexivity|]. split; [reflexivity|].
  apply (@C10_empty_query_reaches_fallback SAMPLE_TEXT st0 line st1 "   " st);
    reflexivity.
Defined.

(* ================================================================== *)
(** * [parseCommand] *)
(* ================================================================== *)

Lemma space_is_not_word (c : ascii) : is_space c = true -> is_word c = false.
Proof.
  destruct c as [[] [] [] [] [] [] [] []]; intros H;
    first [reflexivity | discriminate H].
Qed.

(** What [span] returns: the split point is where the class first fails. *)
Lemma span_spec (cl : ascii -> bool) (s : string) :
  s = (fst (span cl s) ++ snd (span cl s))%string /\
  all cl (fst (span cl s)) = true /\
  match snd (span cl s) with
  | EmptyString => True
  | String c _ => cl c = false
  end.
Proof.
  induction s as [|c s IH]; simpl; [auto|].
  destruct (cl c) eqn:Hc.
  - destruct (span cl s) as [pre post]. simpl in *.
    destruct IH as (E & Hall & Hpost). rewrite Hc, Hall. rewrite <- E. auto.
  - simpl. auto.
Qed.

Lemma span_app_all (cl : ascii -> bool) (w rest : string) :
  all cl w = true ->
  span cl (w ++ rest)
  = ((w ++ fst (span cl rest))%string, snd (span cl rest)).
Proof.
  induction w as [|c w IH]; simpl; intros H.
  - now destruct (span cl rest).
  - apply andb_true_iff in H. destruct H as [Hc Hw].
    rewrite Hc, (IH Hw). reflexivity.
Qed.

Lemma span_stops (cl : ascii -> bool) (c : ascii) (s : string) :
  cl c = false -> span cl (String c s) = ("", String c s).
Proof. intros H. simpl. now rewrite H. Qed.

Lemma span_space_is_trimStart (s : string) :
  snd (span is_space s) = trimStart s.
Proof.
  induction s as [|c s IH]; simpl; [reflexivity|].
  destruct (is_space c); [|reflexivity].
  destruct (span is_space s). exact IH.
Qed.

Lemma trimStart_idempotent (s : string) : trimStart (trimStart s) = trimStart s.
Proof.
  induction s as [|c s IH]; simpl; [reflexivity|].
  destruct (is_space c) eqn:Hc; [exact IH|]. simpl. now rewrite Hc.
Qed.

Lemma all_trimStart (cl : ascii -> bool) (s : string) :
  all cl s = true -> all cl (trimStart s) = true.
Proof.
  induction s as [|c s IH]; simpl; [auto|].
  intros H. destruct (is_space c); [|exact H].
  apply andb_true_iff in H. now apply IH.
Qed.

Lemma or_default_some (s : string) : or_default (Some s) "" = s.
Proof.
  unfold or_default, truthy_opt, truthy. simpl.
  now destruct (String.eqb_spec s "") as [->|].
Qed.

(** The expression accepts every trimmed input of the command form, with
    the word and what follows the white space as captures. *)
Lemma match_command_accepts (t word : string) (remainder : option string) :
  command_form t word remainder ->
  Interpreter.match_command t = Some (word, option_map trimStart remainder).
Proof.
  intros (Hne & Hword & Hform). unfold Interpreter.match_command.
  apply truthy_iff in Hne.
  destruct remainder as [r|].
  - destruct Hform as (blanks & Hb & Hblank & Hr & ->).
    destruct blanks as [|b blanks]; [congruence|].
    simpl in Hblank. apply andb_true_iff in Hblank.
    destruct Hblank as [Hbsp Hblanks].
    rewrite span_app_all by exact Hword.
    cbn [append]. rewrite span_stops by (now apply space_is_not_word).
    cbn [fst snd]. rewrite append_nil_r, Hne. cbn [negb truthy String.eqb].
    change (String b (blanks ++ r)) with (String b blanks ++ r)%string.
    rewrite span_app_all by (simpl; now rewrite Hbsp).
    rewrite span_space_is_trimStart. cbn [append truthy String.eqb negb].
    now rewrite all_trimStart by exact Hr.
  - subst t. rewrite <- (append_nil_r word) at 1.
    rewrite span_app_all by exact Hword. cbn [span fst snd].
    now rewrite append_nil_r, Hne.
Qed.

(** Every input the expression accepts has the command form. *)
Lemma match_command_form (t word : string) (remainder : option string) :
  Interpreter.match_command t = Some (word, remainder) ->
  command_form t word remainder.
Proof.
  unfold Interpreter.match_command.
  destruct (span_spec is_word t) as (Et & Hword & _).
  destruct (span is_word t) as [w rest]. cbn [fst snd] in *.
  destruct (truthy w) eqn:Hw; cbn [negb]; [|discriminate].
  apply truthy_iff in Hw.
  destruct (truthy rest) eqn:Hrest; cbn [negb].
  - destruct (span_spec is_space rest) as (Er & Hblank & _).
    destruct (span is_space rest) as [blanks tail]. cbn [fst snd] in *.
    destruct (truthy blanks) eqn:Hb; cbn [negb]; [|discriminate].
    apply truthy_iff in Hb.
    destruct (all _ tail) eqn:Htail; [|discriminate].
    intros E. injection E as <- <-.
    repeat split; try assumption.
    exists blanks. repeat split; try assumption. congruence.
  - apply truthy_false_iff in Hrest. subst rest.
    intros E. injection E as <- <-.
    repeat split; try assumption. now rewrite append_nil_r in Et.
Qed.

Lemma command_form_nonempty (t word : string) (remainder : option string) :
  command_form t word remainder -> t <> "".
Proof.
  intros (Hne & _ & Hform). destruct remainder as [r|].
  - destruct Hform as (blanks & _ & _ & _ & ->). now apply append_nonempty_l.
  - now subst.
Qed.

Lemma command_form_leading_token (t word : string)
  (remainder : option string) :
  command_form t word remainder -> exists rest, leading_token t word rest.
Proof.
  intros (Hne & Hword & Hform). destruct remainder as [r|].
  - destruct Hform as (blanks & Hb & Hblank & _ & ->).
    exists (blanks ++ r)%string. repeat split; try assumption.
    destruct blanks as [|b blanks]; [congruence|].
    simpl in *. now apply andb_true_iff in Hblank.
  - exists "". subst t. repeat split; try assumption.
    now rewrite append_nil_r.
Qed.

Lemma leading_token_command_form (t word rest : string) :
  single_line t -> leading_token t word rest ->
  exists remainder, command_form t word remainder.
Proof.
  unfold single_line. intros Hline (Hne & Hword & -> & Hrest).
  destruct rest as [|b rest].
  - exists None. repeat split; try assumption. now rewrite append_nil_r.
  - exists (Some rest). repeat split; try assumption.
    exists (String b ""). rewrite all_app in Hline.
    apply andb_true_iff in Hline. destruct Hline as [_ Hline].
    simpl in Hline. apply andb_true_iff in Hline.
    split; [discriminate|]. split; [simpl; now rewrite Hrest|].
    split; [tauto|reflexivity].
Qed.

(** C7, as the code has it.  [parseCommand] returns [null] when the
    trimmed input is empty, and also whenever the trimmed input does not
    begin with a token of word characters that ends at a white space or at
    the end of the input.  For every input whose trim is such a token,
    alone or followed by white space and a remainder without line
    terminators, it returns the lower-cased token as [command] and the
    trimmed remainder as [params], the empty string when there is no
    remainder.  So on inputs without line terminators [null] comes back if
    and only if the trimmed input does not begin with such a token. *)
Theorem C7_parseCommand_amended (input : string) :
  (trim input = "" -> Interpreter.parseCommand input = None) /\
  ((~ exists word rest, leading_token (trim input) word rest) ->
   Interpreter.parseCommand input = None) /\
  (forall word remainder,
      command_form (trim input) word remainder ->
      Interpreter.parseCommand input
      = Some {| Interpreter.command := toLowerCase word;
                Interpreter.params :=
                  match remainder with
                  | Some r => trim r
                  | None => ""
                  end |}) /\
  (single_line (trim input) ->
   (Interpreter.parseCommand input = None <->
    ~ exists word rest, leading_token (trim input) word rest)).
Proof.
  assert (Hsome : forall word remainder,
             command_form (trim input) word remainder ->
             Interpreter.parseCommand input
             = Some {| Interpreter.command := toLowerCase word;
                       Interpreter.params :=
                         match remainder with
                         | Some r => trim r
                         | None => ""
                         end |}).
  { intros word remainder Hform. unfold Interpreter.parseCommand. cbv zeta.
    pose proof (command_form_nonempty Hform) as Hne.
    apply truthy_iff in Hne. rewrite Hne. cbn [negb].
    rewrite (match_command_accepts Hform).
    destruct remainder as [r|]; cbn [option_map]; [|reflexivity].
    rewrite or_default_some. unfold trim at 1.
    now rewrite trimStart_idempotent. }
  assert (Hnull : (~ exists word rest, leading_token (trim input) word rest) ->
                  Interpreter.parseCommand input = None).
  { intros Hno. unfold Interpreter.parseCommand. cbv zeta.
    destruct (truthy (trim input)); cbn [negb]; [|reflexivity].
    destruct (Interpreter.match_command (trim input)) as [[m1 m2]|] eqn:E;
      [|reflexivity].
    exfalso. apply Hno. exists m1.
    now apply match_command_form, command_form_leading_token in E. }
  split; [|split; [exact Hnull|split; [exact Hsome|]]].
  - intros E. unfold Interpreter.parseCommand. now rewrite E.
  - intros Hline. split; [|exact Hnull].
    intros Hnone (word & rest & Htoken).
    destruct (leading_token_command_form Hline Htoken) as (remainder & Hform).
    rewrite (Hsome _ _ Hform) in Hnone. discriminate.
Qed.

Lemma C7_parseCommand_amended_witness :
  command_form (trim "  SHOW  param  ") "SHOW" (Some "param") /\
  Interpreter.parseCommand "  SHOW  param  "
  = Some {| Interpreter.command := "show"; Interpreter.params := "param" |}.
Proof.
  assert (H : command_form (trim "  SHOW  param  ") "SHOW" (Some "param")).
  { split; [discriminate|]. split; [reflexivity|].
    exists "  ". repeat split; try reflexivity. discriminate. }
  split; [exact H|].
  exact (proj1 (proj2 (proj2 (C7_parseCommand_amended "  SHOW  param  ")))
           _ _ H).
Defined.

(** C7, as the specification has it, fails: a trimmed input that does not
    start with a word character is not empty, and [parseCommand] returns
    [null] for it. *)
Lemma C7_parseCommand_counterexample :
  Interpreter.parseCommand "?" = None /\ trim "?" <> "".
Proof.
  split; [reflexivity|discriminate].
Qed.

(* ================================================================== *)
(** * More about [parse]: exact rejection, fresh objects, round trip *)
(* ================================================================== *)

Lemma split_pieces_free (sep : ascii) (s : string) :
  Forall (fun piece => includes sep piece = false) (split sep s).
Proof.
  induction s as [|c s IH]; simpl.
  - repeat constructor.
  - destruct (Ascii.eqb c sep) eqn:Hc.
    + constructor; [reflexivity|exact IH].
    + destruct (split sep s) as [|piece pieces].
      * repeat constructor. simpl. now rewrite Hc.
      * inversion IH; subst. constructor; [|assumption].
        simpl. now rewrite Hc.
Qed.

Lemma split_is_cons (sep : ascii) (s : string) :
  exists piece pieces, split sep s = piece :: pieces.
Proof.
  destruct s as [|c s]; simpl; [eauto|].
  destruct (Ascii.eqb c sep); [eauto|].
  destruct (split sep s); eauto.
Qed.

(** Joining undoes splitting. *)
Lemma join_split (sep : ascii) (s : string) :
  join (String sep "") (split sep s) = s.
Proof.
  induction s as [|c s IH]; simpl; [reflexivity|].
  destruct (split_is_cons sep s) as (piece & pieces & E).
  rewrite E in *.
  destruct (Ascii.eqb_spec c sep) as [->|Hc].
  - change (join (String sep "") ("" :: piece :: pieces))
      with (String sep (join (String sep "") (piece :: pieces))).
    now rewrite IH.
  - destruct pieces as [|q pieces].
    + simpl in *. now rewrite IH.
    + change (join (String sep "") (String c piece :: q :: pieces))
        with (String c (join (String sep "") (piece :: q :: pieces))).
      now rewrite IH.
Qed.

(** Every rejection of [parse] is one of the violations of the grammar. *)
Lemma parse_null_iff (rawLine : string) (st : State) :
  fst (Beads.parse rawLine st) = Normal None <-> violates_grammar rawLine.
Proof.
  unfold violates_grammar, field, Beads.parse.
  destruct (truthy rawLine) eqn:Hraw; cbn [negb].
  2:{ apply truthy_false_iff in Hraw. split; [now left|reflexivity]. }
  apply truthy_iff in Hraw.
  assert (Hblank : blank rawLine -> List.length (split "|" rawLine) < 5).
  { intros B. apply blank_pipe_free, (split_without_separator "|") in B.
    rewrite B. simpl. lia. }
  destruct (split "|" rawLine) as [|ts [|ec [|id [|ag [|se details]]]]] eqn:Hsplit;
    try (split; [intros _; right; right; left; simpl; lia|reflexivity]).
  simpl nth. simpl List.length.
  destruct (truthy ts) eqn:Hts; cbn [negb orb].
  2:{ apply truthy_false_iff in Hts. subst ts.
      split; [|reflexivity]. intros _. right; right; right; left.
      intros H. now apply iso_prefixed_nonempty in H. }
  destruct (match_classes Beads.ISO_8601_PREFIX ts) eqn:Hiso; cbn [negb].
  2:{ split; [|reflexivity]. intros _. right; right; right; left.
      intros H. apply iso_prefix_iff in H. congruence. }
  destruct (truthy ec) eqn:Hec; cbn [negb orb].
  2:{ apply truthy_false_iff in Hec. split; [|reflexivity].
      intros _. now do 4 right; left. }
  destruct (includes "." ec) eqn:Hdot; cbn [negb].
  2:{ split; [|reflexivity]. intros _. do 5 right.
      intros H. apply includes_dot_iff in H. congruence. }
  split; [discriminate|].
  apply iso_prefix_iff in Hiso. apply includes_dot_iff in Hdot.
  apply truthy_iff in Hec.
  intros [V | [V | [V | [V | [V | V]]]]];
    try contradiction; try (apply Hblank in V); simpl in V; lia.
Qed.

(** X1. [BeadsAdapter.parse] returns [null] for exactly the strings that
    violate the grammar, every rejection being one of the listed
    violations, and it returns a line for exactly the other strings. *)
Theorem X1_parse_null_iff_violation (rawLine : string) (st : State) :
  (fst (Beads.parse rawLine st) = Normal None <-> violates_grammar rawLine) /\
  ((exists line, fst (Beads.parse rawLine st) = Normal (Some line))
   <-> ~ violates_grammar rawLine).
Proof.
  split; [apply parse_null_iff|].
  rewrite <- (parse_null_iff rawLine st).
  destruct (parse_cases rawLine st) as [E | (ts & ec & id & ag & se & de & E)].
  - rewrite E. cbn [fst]. split; [intros [line H]; discriminate|].
    intros H. now contradiction H.
  - cbv zeta in E. destruct E as (_ & _ & _ & _ & _ & E). rewrite E. cbn [fst].
    split; [discriminate|]. intros _. eauto.
Qed.

Lemma update_elsewhere {A} (f : loc -> A) (l l' : loc) (a : A) :
  l' <> l -> update f l a l' = f l'.
Proof. intros H. unfold update. apply Nat.eqb_neq in H. now rewrite H. Qed.

Lemma or_else_empty (s : string) : or_else s "" = s.
Proof.
  unfold or_else, truthy. now destruct (String.eqb_spec s "") as [->|].
Qed.

Lemma or_else_none (s : string) :
  or_else s "none" = if String.eqb s "" then "none" else s.
Proof. unfold or_else, truthy. now destruct (String.eqb s ""). Qed.

(** X2. A successful [parse] creates two objects at unused places and
    changes nothing else: the objects that existed, the history of
    external calls and the fallback configuration are as before.  The
    lines of two parses share neither their source object nor their
    context object, and the later parse leaves the earlier line's source
    as it was. *)
Theorem X2_parse_creates_fresh_objects (rawLine rawLine' : string)
  (st st1 st2 : State) (line line' : ActionableLogLine) :
  Beads.parse rawLine st = (Normal (Some line), st1) ->
  Beads.parse rawLine' st1 = (Normal (Some line'), st2) ->
  (forall l, l < next_loc st ->
      sources st1 l = sources st l /\ contexts st1 l = contexts st l) /\
  trace st1 = trace st /\
  fallbackConfig st1 = fallbackConfig st /\
  source line' <> source line /\
  src_context (sources st2 (source line'))
  <> src_context (sources st1 (source line)) /\
  source_snapshot st2 line = source_snapshot st1 line.
Proof.
  intros H1 H2.
  apply parse_returns in H1. destruct H1 as (c & -> & -> & _).
  apply parse_returns in H2. destruct H2 as (c' & -> & -> & _).
  cbn [source beads_line after_parse next_loc sources contexts trace
         fallbackConfig].
  split; [|split; [reflexivity|split; [reflexivity|]]].
  - intros l Hl. rewrite !update_elsewhere by lia. now split.
  - split; [lia|]. unfold source_snapshot.
    cbn [source beads_line after_parse next_loc sources contexts].
    rewrite !update_same. cbn [src_context].
    rewrite (@update_elsewhere _ _ (S (S (S (next_loc st))))) by lia.
    rewrite update_same. cbn [src_context src_type src_id].
    split; [lia|].
    rewrite (@update_elsewhere _ _ (S (S (next_loc st)))) by lia.
    now rewrite update_same.
Qed.

Lemma X2_parse_creates_fresh_objects_witness :
  let st := initial_state bd_echo in
  let st1 := after_parse st SAMPLE_CONTEXT in
  let st2 := after_parse st1 BOOTUP_CONTEXT in
  let line := beads_line SAMPLE_TEXT SAMPLE_CONTEXT 0 1 in
  let line' := beads_line BOOTUP_TEXT BOOTUP_CONTEXT 2 3 in
  Beads.parse SAMPLE_TEXT st = (Normal (Some line), st1) /\
  Beads.parse BOOTUP_TEXT st1 = (Normal (Some line'), st2) /\
  source line' <> source line /\
  source_snapshot st2 line = source_snapshot st1 line.
Proof.
  intros st st1 st2 line line'.
  assert (H1 : Beads.parse SAMPLE_TEXT st = (Normal (Some line), st1))
    by reflexivity.
  assert (H2 : Beads.parse BOOTUP_TEXT st1 = (Normal (Some line'), st2))
    by reflexivity.
  split; [exact H1|]. split; [exact H2|].
  destruct (@X2_parse_creates_fresh_objects SAMPLE_TEXT BOOTUP_TEXT
              st st1 st2 line line' H1 H2)
    as (_ & _ & _ & Hsrc & _ & Hsnap).
  split; [exact Hsrc|exact Hsnap].
Defined.

(** X3. The context object of a parsed line holds the fields of the line:
    the input is its first five fields and the detail parts joined by the
    delimiter, the entity id is the third field or ["none"] when that is
    empty, and [details] is the detail parts joined again, delimiters
    included. *)
Theorem X3_parse_context_round_trip (rawLine : string) (st : State)
  (line : ActionableLogLine) (st1 : State) :
  Beads.parse rawLine st = (Normal (Some line), st1) ->
  exists issueField agentId sessionId detailParts,
    rawLine
    = join "|" (timestamp line :: message line :: issueField :: agentId
                  :: sessionId :: detailParts) /\
    Forall pipe_free
      (timestamp line :: message line :: issueField :: agentId
         :: sessionId :: detailParts) /\
    contexts st1 (src_context (sources st1 (source line)))
    = [ ("timestamp", timestamp line);
        ("eventCode", message line);
        ("issueId", if String.eqb issueField "" then "none" else issueField);
        ("agentId", agentId);
        ("sessionId", sessionId);
        ("details", join "|" detailParts) ].
Proof.
  intros H.
  destruct (parse_cases rawLine st) as [E | (ts & ec & id & ag & se & de & E)].
  - rewrite E in H. discriminate.
  - cbv zeta in E. destruct E as (_ & Hsplit & _ & _ & _ & E).
    rewrite E in H. injection H as <- <-.
    exists id, ag, se, de.
    cbn [timestamp message source beads_line after_parse sources contexts
           Beads.ctx_timestamp Beads.ctx_eventCode].
    rewrite !update_same. cbn [src_context]. rewrite ?update_same.
    split; [|split].
    + rewrite <- Hsplit. symmetry. apply join_split.
    + rewrite <- Hsplit. apply split_pieces_free.
    + unfold Beads.context_object.
      cbn [Beads.ctx_timestamp Beads.ctx_eventCode Beads.ctx_issueId
             Beads.ctx_agentId Beads.ctx_sessionId Beads.ctx_details].
      now rewrite !or_else_empty, or_else_none.
Qed.

Lemma X3_parse_context_round_trip_witness :
  let st := initial_state bd_echo in
  let line := beads_line BOOTUP_TEXT BOOTUP_CONTEXT 0 1 in
  let st1 := after_parse st BOOTUP_CONTEXT in
  Beads.parse BOOTUP_TEXT st = (Normal (Some line), st1) /\
  exists issueField agentId sessionId detailParts,
    BOOTUP_TEXT
    = join "|" (timestamp line :: message line :: issueField :: agentId
                  :: sessionId :: detailParts) /\
    Forall pipe_free
      (timestamp line :: message line :: issueField :: agentId
         :: sessionId :: detailParts) /\
    contexts st1 (src_context (sources st1 (source line)))
    = [ ("timestamp", timestamp line);
        ("eventCode", message line);
        ("issueId", if String.eqb issueField "" then "none" else issueField);
        ("agentId", agentId);
        ("sessionId", sessionId);
        ("details", join "|" detailParts) ].
Proof.
  intros st line st1. split; [reflexivity|].
  apply (@X3_parse_context_round_trip BOOTUP_TEXT st line st1). reflexivity.
Defined.

(** X4. [parseEventCode] cuts the event code at its first dot: the
    category holds no dot; when the code has a dot it is the category, a
    dot and the action; when it has none the category is the whole code
    and the action is empty. *)
Theorem X4_parseEventCode_cuts_at_first_dot (eventCode : string) :
  let category := fst (Beads.parseEventCode eventCode) in
  let action := snd (Beads.parseEventCode eventCode) in
  includes "." category = false /\
  (includes "." eventCode = true ->
   eventCode = (category ++ "." ++ action)%string) /\
  (includes "." eventCode = false -> category = eventCode /\ action = "").
Proof.
  unfold Beads.parseEventCode. cbv zeta. cbn [fst snd].
  pose proof (join_split "." eventCode) as Hjoin.
  pose proof (split_pieces_free "." eventCode) as Hfree.
  destruct (split_is_cons "." eventCode) as (piece & pieces & E).
  rewrite E in *. cbn [hd_error tl interpolate].
  pose proof (Forall_inv Hfree) as Hpiece. cbv beta in Hpiece.
  split; [exact Hpiece|]. split.
  - intros Hdot. destruct pieces as [|q pieces].
    + simpl in Hjoin. congruence.
    + symmetry. exact Hjoin.
  - intros Hdot. apply (split_without_separator ".") in Hdot.
    rewrite Hdot in E. injection E as <- <-. now split.
Qed.

(* ================================================================== *)
(** * More about the commands of a beads line *)
(* ================================================================== *)

Lemma toLowerCase_app (a b : string) :
  toLowerCase (a ++ b) = (toLowerCase a ++ toLowerCase b)%string.
Proof. induction a as [|c a IH]; simpl; [reflexivity|now rewrite IH]. Qed.

Lemma spaceless_lower (s : string) : spaceless s -> spaceless (toLowerCase s).
Proof.
  unfold spaceless. induction s as [|c s IH]; simpl; [auto|].
  rewrite lower_char_space. intros H. apply andb_true_iff in H.
  destruct H as [Hc Hs]. now rewrite Hc, IH.
Qed.

Lemma trimEnd_spaceless_app (tok r : string) :
  spaceless tok -> trimEnd (tok ++ r) = (tok ++ trimEnd r)%string.
Proof.
  unfold spaceless. induction tok as [|c tok IH]; simpl; [reflexivity|].
  intros H. apply andb_true_iff in H. destruct H as [Hc Htok].
  rewrite (IH Htok). apply negb_true_iff in Hc. rewrite Hc.
  now destruct (tok ++ trimEnd r)%string.
Qed.

Lemma trim_token_app (tok r : string) :
  tok <> "" -> spaceless tok -> trim (tok ++ r) = (tok ++ trimEnd r)%string.
Proof.
  intros Hne Hsp. unfold trim.
  destruct tok as [|c tok]; [congruence|].
  pose proof Hsp as Hsp'. unfold spaceless in Hsp'. simpl in Hsp'.
  apply andb_true_iff in Hsp'. destruct Hsp' as [Hc _].
  apply negb_true_iff in Hc.
  cbn [append trimStart]. rewrite Hc.
  exact (trimEnd_spaceless_app r Hsp).
Qed.

Lemma split_ws_from_token (cur tok r : string) :
  spaceless tok ->
  split_ws_from false cur (tok ++ r) = split_ws_from false (cur ++ tok) r.
Proof.
  unfold spaceless. revert cur. induction tok as [|c tok IH]; intros cur H.
  - now rewrite append_nil_r.
  - simpl in H. apply andb_true_iff in H. destruct H as [Hc Htok].
    apply negb_true_iff in Hc. cbn [append split_ws_from]. rewrite Hc.
    rewrite (IH _ Htok), append_assoc. reflexivity.
Qed.

Lemma trimEnd_starts_blank (r : string) :
  starts_blank r -> starts_blank (toLowerCase (trimEnd r)).
Proof.
  destruct r as [|c r]; simpl; [auto|]. intros Hc.
  destruct (trimEnd r); simpl; rewrite ?Hc; simpl;
    now rewrite ?lower_char_space.
Qed.

(** The pieces of a query that is a token followed by white space and
    more: the lower-cased token, then pieces that depend on what follows
    the token only. *)
Lemma query_pieces (rest : string) :
  starts_blank rest ->
  exists tail,
    forall tok, tok <> "" -> spaceless tok ->
      split_ws (toLowerCase (trim (tok ++ rest))) = toLowerCase tok :: tail.
Proof.
  intros Hrest. apply trimEnd_starts_blank in Hrest.
  exists (match toLowerCase (trimEnd rest) with
          | EmptyString => []
          | String _ r' => split_ws_from true "" r'
          end).
  intros tok Hne Hsp.
  rewrite trim_token_app, toLowerCase_app by assumption.
  unfold split_ws. rewrite split_ws_from_token by now apply spaceless_lower.
  cbn [append].
  destruct (toLowerCase (trimEnd rest)) as [|c r']; [reflexivity|].
  simpl in Hrest. simpl. now rewrite Hrest.
Qed.

(** X5. Every alias of a command is a synonym of its name: on a parsed
    beads line a query that starts with the alias gives what the same
    query gives with the name in its place. *)
Theorem X5_alias_is_synonym (rawLine : string) (st0 : State)
  (line : ActionableLogLine) (st1 : State) (cmd : Command)
  (alias rest : string) (st : State) :
  Beads.parse rawLine st0 = (Normal (Some line), st1) ->
  In cmd (availableCommands line) ->
  In alias (aliases cmd) ->
  starts_blank rest ->
  handleQuery line (alias ++ rest) st = handleQuery line (name cmd ++ rest) st.
Proof.
  intros Hparse Hcmd Halias Hrest. apply parse_returns in Hparse.
  destruct Hparse as (c & -> & _).
  destruct (query_pieces rest Hrest) as (tail & Hpieces).
  cbn [availableCommands handleQuery beads_line] in *.
  unfold Beads.line_handleQuery. cbv zeta.
  unfold Beads.createBeadsCommands in Hcmd.
  repeat (destruct Hcmd as [<- | Hcmd]); try contradiction;
    cbn [aliases name] in *;
    repeat (destruct Halias as [<- | Halias]); try contradiction;
    rewrite !Hpieces by (discriminate || reflexivity);
    reflexivity.
Qed.

Lemma X5_alias_is_synonym_witness :
  let st0 := initial_state bd_echo in
  let line := beads_line SAMPLE_TEXT SAMPLE_CONTEXT 0 1 in
  let st1 := after_parse st0 SAMPLE_CONTEXT in
  match availableCommands line with
  | show :: related :: _ =>
      Beads.parse SAMPLE_TEXT st0 = (Normal (Some line), st1) /\
      handleQuery line ("rel" ++ "  x ") st1
      = handleQuery line (name related ++ "  x ") st1
  | _ => False
  end.
Proof.
  intros st0 line st1.
  cbv [line beads_line availableCommands Beads.createBeadsCommands].
  split; [reflexivity|].
  eapply (@X5_alias_is_synonym SAMPLE_TEXT st0 line st1 _ "rel" "  x " st1).
  - reflexivity.
  - right; left; reflexivity.
  - right; left; reflexivity.
  - reflexivity.
Defined.

Ltac dispatch_command :=
  cbn [Beads.find_command Beads.createBeadsCommands strict_eq
         Beads.aliases_include existsb name aliases handler
         String.eqb Ascii.eqb Bool.eqb orb andb hd_error tl].

Ltac lower_literals :=
  repeat match goal with
         | |- context [toLowerCase ?s] =>
             let v := eval vm_compute in (toLowerCase s) in
             change (toLowerCase s) with v
         end.

Ltac read_parsed_context Hctx :=
  unfold read_context, gets; unfold bind at 1; cbv beta iota; rewrite Hctx;
  cbn [prop Beads.context_object String.eqb Ascii.eqb Bool.eqb
         truthy_opt strict_eq interpolate].

(** X7. On a parsed beads line, [deps] gives exactly what [show] gives:
    both run [bd show <entity id>], with the entity id as the line has it,
    and both answer with the informational message, running nothing, when
    the entity id is ["none"]. *)
Theorem X7_show_and_deps_run_bd_show (rawLine : string) (st0 : State)
  (line : ActionableLogLine) (st1 : State) (rest : string) (st : State) :
  Beads.parse rawLine st0 = (Normal (Some line), st1) ->
  contexts st (src_context (sources st1 (source line)))
  = contexts st1 (src_context (sources st1 (source line))) ->
  starts_blank rest ->
  let id := src_id (sources st1 (source line)) in
  handleQuery line ("deps" ++ rest) st = handleQuery line ("show" ++ rest) st /\
  handleQuery line ("show" ++ rest) st
  = if String.eqb id "none"
    then (Normal (Beads.handled_with "No issue associated with this event"), st)
    else bd_run st ("bd show " ++ id).
Proof.
  intros Hparse Hctx Hrest. apply parse_returns in Hparse.
  destruct Hparse as (c & -> & -> & Hid & _).
  destruct (parsed_line_objects rawLine c st0 Hid) as [Hsrc Hobj].
  cbv zeta in Hsrc, Hobj. rewrite Hsrc in *. cbn [src_context src_id] in *.
  rewrite Hobj in Hctx. clear Hsrc Hobj.
  destruct (query_pieces rest Hrest) as (tail & Hpieces).
  cbn [handleQuery beads_line]. unfold Beads.line_handleQuery. cbv zeta.
  rewrite !Hpieces by (discriminate || reflexivity).
  lower_literals. dispatch_command.
  split; [reflexivity|].
  read_parsed_context Hctx.
  apply truthy_iff in Hid. rewrite Hid. cbn [negb orb].
  destruct (String.eqb (Beads.ctx_issueId c) "none"); [reflexivity|].
  now rewrite run_and_show.
Qed.

Lemma X7_show_and_deps_run_bd_show_witness :
  let st0 := initial_state bd_missing in
  let line := beads_line SAMPLE_TEXT SAMPLE_CONTEXT 0 1 in
  let st1 := after_parse st0 SAMPLE_CONTEXT in
  Beads.parse SAMPLE_TEXT st0 = (Normal (Some line), st1) /\
  handleQuery line "deps" st1 = handleQuery line "show" st1 /\
  handleQuery line "show" st1 = bd_run st1 "bd show bd-97ux".
Proof.
  intros st0 line st1. split; [reflexivity|].
  apply (@X7_show_and_deps_run_bd_show SAMPLE_TEXT st0 line st1 "" st1);
    reflexivity.
Defined.

(** X8. On a parsed beads line, [related] runs [bd log --issue <entity
    id>] when the line has an entity id, and falls back to the category
    filter [bd log --category <category> --last 20] when the entity id is
    ["none"], the category being the event code up to its first dot. *)
Theorem X8_related_falls_back_to_category (rawLine : string) (st0 : State)
  (line : ActionableLogLine) (st1 : State) (rest : string) (st : State) :
  Beads.parse rawLine st0 = (Normal (Some line), st1) ->
  contexts st (src_context (sources st1 (source line)))
  = contexts st1 (src_context (sources st1 (source line))) ->
  starts_blank rest ->
  let id := src_id (sources st1 (source line)) in
  handleQuery line ("related" ++ rest) st
  = if String.eqb id "none"
    then bd_run st ("bd log --category "
                      ++ fst (Beads.parseEventCode (message line))
                      ++ " --last 20")
    else bd_run st ("bd log --issue " ++ id).
Proof.
  intros Hparse Hctx Hrest. apply parse_returns in Hparse.
  destruct Hparse as (c & -> & -> & Hid & _).
  destruct (parsed_line_objects rawLine c st0 Hid) as [Hsrc Hobj].
  cbv zeta in Hsrc, Hobj. rewrite Hsrc in *. cbn [src_context src_id] in *.
  rewrite Hobj in Hctx. clear Hsrc Hobj.
  destruct (query_pieces rest Hrest) as (tail & Hpieces).
  cbn [handleQuery message beads_line]. unfold Beads.line_handleQuery.
  cbv zeta. rewrite !Hpieces by (discriminate || reflexivity).
  lower_literals. dispatch_command.
  read_parsed_context Hctx.
  apply truthy_iff in Hid. rewrite Hid. cbn [negb orb andb].
  destruct (String.eqb (Beads.ctx_issueId c) "none"); cbn [negb].
  - cbn [Beads.receiver]. rewrite bind_ret_run. now rewrite run_and_show.
  - now rewrite run_and_show.
Qed.

Lemma X8_related_falls_back_to_category_witness :
  let st0 := initial_state bd_echo in
  let line := beads_line BOOTUP_TEXT BOOTUP_CONTEXT 0 1 in
  let st1 := after_parse st0 BOOTUP_CONTEXT in
  Beads.parse BOOTUP_TEXT st0 = (Normal (Some line), st1) /\
  handleQuery line "related" st1
  = bd_run st1 "bd log --category sk --last 20".
Proof.
  intros st0 line st1. split; [reflexivity|].
  apply (@X8_related_falls_back_to_category
           BOOTUP_TEXT st0 line st1 "" st1); reflexivity.
Defined.

Lemma trimEnd_blank (s : string) : blank s -> trimEnd s = "".
Proof.
  unfold blank. induction s as [|c s IH]; simpl; [reflexivity|].
  intros H. apply andb_true_iff in H. destruct H as [Hc Hs].
  now rewrite (IH Hs), Hc.
Qed.

Lemma trimEnd_spaceless (s : string) : spaceless s -> trimEnd s = s.
Proof.
  intros H. rewrite <- (append_nil_r s) at 1.
  rewrite trimEnd_spaceless_app by assumption. simpl. apply append_nil_r.
Qed.

Lemma split_ws_from_spaceless (in_run : bool) (cur s : string) :
  spaceless s -> s <> "" ->
  split_ws_from in_run cur s = [(cur ++ s)%string].
Proof.
  intros Hs Hne. destruct s as [|c s]; [congruence|].
  unfold spaceless in Hs. simpl in Hs. apply andb_true_iff in Hs.
  destruct Hs as [Hc Hs]. apply negb_true_iff in Hc.
  cbn [split_ws_from]. rewrite Hc. clear Hne.
  change (cur ++ String c s)%string with (cur ++ String c "" ++ s)%string.
  rewrite <- append_assoc. generalize (cur ++ String c "")%string.
  clear cur c Hc. induction s as [|d s IH]; intros cur; simpl.
  - now rewrite append_nil_r.
  - simpl in Hs. apply andb_true_iff in Hs. destruct Hs as [Hd Hs].
    apply negb_true_iff in Hd. rewrite Hd, (IH Hs), append_assoc.
    reflexivity.
Qed.

Lemma toLowerCase_nonempty (s : string) : s <> "" -> toLowerCase s <> "".
Proof. destruct s; [congruence|discriminate]. Qed.

(** X9. On a parsed beads line, [category] alone filters by the line's own
    category (the event code up to its first dot), and [category <word>]
    filters by the word in lower case, whatever the case it was typed
    in: both run [bd log --category ... --last 30]. *)
Theorem X9_category_filter (rawLine : string) (st0 : State)
  (line : ActionableLogLine) (st1 : State) (st : State) :
  Beads.parse rawLine st0 = (Normal (Some line), st1) ->
  contexts st (src_context (sources st1 (source line)))
  = contexts st1 (src_context (sources st1 (source line))) ->
  (forall rest, blank rest ->
      handleQuery line ("category" ++ rest) st
      = bd_run st ("bd log --category "
                     ++ fst (Beads.parseEventCode (message line))
                     ++ " --last 30")) /\
  (forall word, word <> "" -> spaceless word ->
      handleQuery line ("category " ++ word) st
      = bd_run st ("bd log --category " ++ toLowerCase word ++ " --last 30")).
Proof.
  intros Hparse Hctx. apply parse_returns in Hparse.
  destruct Hparse as (c & -> & -> & Hid & _).
  destruct (parsed_line_objects rawLine c st0 Hid) as [Hsrc Hobj].
  cbv zeta in Hsrc, Hobj. rewrite Hsrc in *. cbn [src_context src_id] in *.
  rewrite Hobj in Hctx. clear Hsrc Hobj.
  cbn [handleQuery message beads_line]. unfold Beads.line_handleQuery.
  cbv zeta. split.
  - intros rest Hrest.
    rewrite trim_token_app by (discriminate || reflexivity).
    rewrite (trimEnd_blank Hrest), append_nil_r.
    lower_literals.
    change (split_ws "category") with ["category"].
    dispatch_command. cbn [join]. read_parsed_context Hctx.
    cbn [truthy String.eqb negb]. rewrite bind_assoc_run.
    cbn [Beads.receiver]. rewrite !bind_ret_run. now rewrite run_and_show.
  - intros word Hne Hsp.
    change ("category " ++ word)%string
      with ("category" ++ String " " word)%string.
    rewrite trim_token_app by (discriminate || reflexivity).
    assert (Hend : trimEnd (String " " word) = String " " word).
    { cbn [trimEnd]. rewrite (trimEnd_spaceless Hsp).
      destruct word; [congruence|reflexivity]. }
    rewrite Hend, toLowerCase_app.
    unfold split_ws. rewrite split_ws_from_token by reflexivity.
    change (toLowerCase "category") with "category".
    change (toLowerCase (String " " word)) with (String " " (toLowerCase word)).
    change (split_ws_from false ("" ++ "category")
              (String " " (toLowerCase word)))
      with ("category" :: split_ws_from true "" (toLowerCase word)).
    rewrite split_ws_from_spaceless
      by (now apply spaceless_lower || now apply toLowerCase_nonempty).
    dispatch_command. cbn [join].
    change ("" ++ toLowerCase word)%string with (toLowerCase word).
    read_parsed_context Hctx.
    pose proof (toLowerCase_nonempty Hne) as Hlow. apply truthy_iff in Hlow.
    rewrite Hlow. rewrite bind_ret_run. now rewrite run_and_show.
Qed.

Lemma X9_category_filter_witness :
  let st0 := initial_state bd_echo in
  let line := beads_line SAMPLE_TEXT SAMPLE_CONTEXT 0 1 in
  let st1 := after_parse st0 SAMPLE_CONTEXT in
  Beads.parse SAMPLE_TEXT st0 = (Normal (Some line), st1) /\
  handleQuery line ("category" ++ "  ") st1
  = bd_run st1 "bd log --category bd --last 30" /\
  handleQuery line ("category " ++ "GT") st1
  = bd_run st1 "bd log --category gt --last 30".
Proof.
  intros st0 line st1. split; [reflexivity|].
  destruct (@X9_category_filter SAMPLE_TEXT st0 line st1 st1
              eq_refl eq_refl) as [Hown Hword].
  split.
  - exact (Hown "  " eq_refl).
  - refine (Hword "GT" _ eq_refl). discriminate.
Defined.

(* ================================================================== *)
(** * External calls of a query *)
(* ================================================================== *)

Section CallCounting.

Lemma quiet_ret {A} (a : A) : quiet (ret a).
Proof. intros st. reflexivity. Qed.

Lemma quiet_throw {A} (e : JsError) : quiet (@throw A e).
Proof. intros st. reflexivity. Qed.

Lemma quiet_gets {A} (f : State -> A) : quiet (gets f).
Proof. intros st. reflexivity. Qed.

Lemma quiet_receiver (v : option string) (method : string) :
  quiet (Beads.receiver v method).
Proof. destruct v; [apply quiet_ret|apply quiet_throw]. Qed.

Lemma quiet_if {A} (b : bool) (c1 c2 : M A) :
  quiet c1 -> quiet c2 -> quiet (if b then c1 else c2).
Proof. now destruct b. Qed.

Lemma quiet_bind {A B} (c : M A) (k : A -> M B) :
  quiet c -> (forall a, quiet (k a)) -> quiet (bind c k).
Proof.
  intros Hc Hk st. unfold bind. specialize (Hc st).
  destruct (c st) as [[a|e] st']; simpl in *; [|exact Hc].
  now rewrite Hk.
Qed.

Lemma once_of_quiet {A} (c : M A) : quiet c -> runs_bd_at_most_once c.
Proof. intros H st. left. apply H. Qed.

Lemma once_after_quiet {A B} (c : M A) (k : A -> M B) :
  quiet c -> (forall a, runs_bd_at_most_once (k a)) ->
  runs_bd_at_most_once (bind c k).
Proof.
  intros Hc Hk st. unfold bind. specialize (Hc st).
  destruct (c st) as [[a|e] st']; simpl in *; [|now left].
  destruct (Hk a st') as [E | (ev & Hev & E)].
  - left. congruence.
  - right. exists ev. split; [assumption|congruence].
Qed.

Lemma once_then_quiet {A B} (c : M A) (k : A -> M B) :
  runs_bd_at_most_once c -> (forall a, quiet (k a)) ->
  runs_bd_at_most_once (bind c k).
Proof.
  intros Hc Hk st. unfold bind. specialize (Hc st).
  destruct (c st) as [[a|e] st']; simpl in *; [|exact Hc].
  pose proof (Hk a st') as E.
  destruct Hc as [H | (ev & Hev & H)].
  - left. congruence.
  - right. exists ev. split; [assumption|congruence].
Qed.

Lemma once_if {A} (b : bool) (c1 c2 : M A) :
  runs_bd_at_most_once c1 -> runs_bd_at_most_once c2 ->
  runs_bd_at_most_once (if b then c1 else c2).
Proof. now destruct b. Qed.

Lemma once_runBdCommand (args : string) :
  runs_bd_at_most_once (Beads.runBdCommand args).
Proof.
  intros st. rewrite runBdCommand_completes. right.
  exists (EvExec ("bd " ++ args)). split; [now exists args|reflexivity].
Qed.

Lemma handled_ret (text : string) : answers_handled (ret (Beads.handled_with text)).
Proof. intros st r st' E. injection E as <- _. now split. Qed.

Lemma handled_bind {A} (c : M A) (k : A -> M QueryResult) :
  (forall a, answers_handled (k a)) -> answers_handled (bind c k).
Proof.
  intros Hk st r st'. unfold bind.
  destruct (c st) as [[a|e] st1]; [apply Hk|discriminate].
Qed.

Lemma handled_if (b : bool) (c1 c2 : M QueryResult) :
  answers_handled c1 -> answers_handled c2 ->
  answers_handled (if b then c1 else c2).
Proof. now destruct b. Qed.

End CallCounting.

Ltac quiet_steps :=
  repeat first
    [ apply quiet_ret | apply quiet_throw | apply quiet_gets
    | apply quiet_receiver
    | apply quiet_bind; [|intros ?]
    | apply quiet_if ].

Ltac once_steps :=
  repeat first
    [ apply once_runBdCommand
    | apply once_then_quiet; [apply once_runBdCommand|intros ?; apply quiet_ret]
    | apply once_after_quiet; [solve [quiet_steps]|intros ?]
    | apply once_if
    | apply once_of_quiet; solve [quiet_steps] ].

Ltac handled_steps :=
  repeat first
    [ apply handled_ret
    | apply handled_bind; intros ?
    | apply handled_if ].

(** Every handler of a beads line, in any state of the process, makes at
    most one external call, a run of [bd], and when it completes normally
    its result is [handled] and carries no [error]. *)
Lemma beads_handler_calls (context : loc) (cmd : Command)
  (params : option string) :
  In cmd (Beads.createBeadsCommands context) ->
  runs_bd_at_most_once (handler cmd params) /\
  answers_handled (handler cmd params).
Proof.
  unfold Beads.createBeadsCommands.
  intros H. repeat (destruct H as [<- | H]); try contradiction;
    cbn [handler]; unfold read_context;
    (split; [once_steps|handled_steps]).
Qed.

(** When [handleQuery] runs a computation whose results are all handled,
    [interpret] is that computation. *)
Lemma interpret_of_handled (line : ActionableLogLine) (input : string)
  (st : State) :
  answers_handled (handleQuery line input) ->
  Interpreter.interpret line input st = handleQuery line input st.
Proof.
  intros Hh. rewrite interpret_steps.
  destruct (handleQuery line input st) as [[r|e] st1] eqn:E; [|reflexivity].
  destruct (Hh _ _ _ E) as [Hr _]. now rewrite Hr.
Qed.

(** What [handleQuery] of a beads line is: the call of a handler of the
    line, or the unknown-command answer. *)
Lemma beads_handleQuery_cases (context : loc) (input : string) :
  let commands := Beads.createBeadsCommands context in
  (exists cmd params,
      In cmd commands /\
      Beads.line_handleQuery commands input = handler cmd (Some params)) \/
  (exists token,
      hd_error (split_ws (toLowerCase (trim input))) = Some token /\
      find (answers_to token) commands = None /\
      Beads.line_handleQuery commands input = ret (unknown_command token)).
Proof.
  intros commands. unfold Beads.line_handleQuery. cbv zeta.
  destruct (split_ws (toLowerCase (trim input))) as [|token rest] eqn:Hsplit.
  { now apply split_ws_from_not_nil in Hsplit. }
  cbn [hd_error tl]. fold commands. rewrite find_command_is_find.
  destruct (find (answers_to token) commands) as [cmd|] eqn:Hfind.
  - left. exists cmd, (join " " rest). split; [|reflexivity].
    now apply find_some in Hfind.
  - right. exists token. split; [reflexivity|]. split; [exact Hfind|].
    reflexivity.
Qed.

(** X10. On a parsed beads line a query whose first token is the name or
    an alias of a command never reaches the fallback: whatever the
    fallback configuration and the state of the process, [interpret] does
    what the command's handler does, so at most one run of [bd] and no
    other external call, and a normal result is [handled] and carries no
    [error], also when [bd] failed. *)
Theorem X10_command_never_reaches_fallback (rawLine : string) (st0 : State)
  (line : ActionableLogLine) (st1 : State) (input token : string)
  (st : State) :
  Beads.parse rawLine st0 = (Normal (Some line), st1) ->
  hd_error (split_ws (toLowerCase (trim input))) = Some token ->
  existsb (answers_to token) (availableCommands line) = true ->
  Interpreter.interpret line input st = handleQuery line input st /\
  at_most_one_call is_bd_call st (snd (Interpreter.interpret line input st)) /\
  (forall r st',
      Interpreter.interpret line input st = (Normal r, st') ->
      handled r = true /\ error r = None).
Proof.
  intros Hparse Htoken Hknown. apply parse_returns in Hparse.
  destruct Hparse as (c & -> & _).
  cbn [availableCommands beads_line] in Hknown.
  assert (Hcall : exists cmd params,
             In cmd (Beads.createBeadsCommands (next_loc st0)) /\
             Beads.line_handleQuery
               (Beads.createBeadsCommands (next_loc st0)) input
             = handler cmd (Some params)).
  { destruct (beads_handleQuery_cases (next_loc st0) input)
      as [H | (token' & Htoken' & Hnone & _)]; [exact H|].
    rewrite Htoken in Htoken'. injection Htoken' as <-.
    apply existsb_exists in Hknown. destruct Hknown as (cmd & Hin & Hans).
    now rewrite (find_none _ _ Hnone cmd Hin) in Hans. }
  destruct Hcall as (cmd & params & Hin & Hq).
  destruct (beads_handler_calls (Some params) Hin) as [Honce Hhandled].
  assert (E : Interpreter.interpret
                (beads_line rawLine c (next_loc st0) (S (next_loc st0)))
                input st
              = handler cmd (Some params) st).
  { rewrite interpret_of_handled; cbn [handleQuery beads_line];
      now rewrite Hq. }
  rewrite E. cbn [handleQuery beads_line]. rewrite Hq.
  split; [reflexivity|]. split; [apply Honce|]. intros r st'. apply Hhandled.
Qed.

Lemma X10_command_never_reaches_fallback_witness :
  let st0 := initial_state bd_missing in
  let line := beads_line SAMPLE_TEXT SAMPLE_CONTEXT 0 1 in
  let st1 := after_parse st0 SAMPLE_CONTEXT in
  let st := with_fallback {| enabled := true;
                             fallback_handler := Some (constant_handler "resp") |}
                          st1 in
  Beads.parse SAMPLE_TEXT st0 = (Normal (Some line), st1) /\
  Interpreter.interpret line "  REL now " st
  = handleQuery line "  REL now " st /\
  at_most_one_call is_bd_call st
    (snd (Interpreter.interpret line "  REL now " st)) /\
  (forall r st',
      Interpreter.interpret line "  REL now " st = (Normal r, st') ->
      handled r = true /\ error r = None).
Proof.
  intros st0 line st1 st. split; [reflexivity|].
  apply (@X10_command_never_reaches_fallback
           SAMPLE_TEXT st0 line st1 "  REL now " "rel" st); reflexivity.
Defined.

(** X11. One [interpret] call on a parsed beads line makes at most one
    external call: a run of [bd] or a call of the fallback handler with
    the query as typed, never both and never a second attempt. *)
Theorem X11_interpret_makes_one_call_at_most (rawLine : string)
  (st0 : State) (line : ActionableLogLine) (st1 : State) (input : string)
  (st : State) :
  Beads.parse rawLine st0 = (Normal (Some line), st1) ->
  at_most_one_call (fun ev => is_bd_call ev \/ is_fallback_call input ev)
    st (snd (Interpreter.interpret line input st)).
Proof.
  intros Hparse. apply parse_returns in Hparse.
  destruct Hparse as (c & -> & _).
  destruct (beads_handleQuery_cases (next_loc st0) input)
    as [(cmd & params & Hin & Hq) | (token & _ & _ & Hq)]; cbv zeta in Hq.
  - destruct (beads_handler_calls (Some params) Hin) as [Honce Hhandled].
    rewrite interpret_of_handled; cbn [handleQuery beads_line]; rewrite Hq;
      [|exact Hhandled].
    destruct (Honce st) as [E | (ev & Hev & E)]; [now left|].
    right. exists ev. split; [now left|exact E].
  - rewrite interpret_steps. cbn [handleQuery beads_line]. rewrite Hq.
    unfold ret at 1. cbn [handled unknown_command].
    destruct (enabled (fallbackConfig st));
      [destruct (fallback_handler (fallbackConfig st)) as [h|]|];
      try (now left).
    match goal with
    | |- context [try_catch _ _ st] =>
        destruct (fallback_branch
                    (beads_line rawLine c (next_loc st0) (S (next_loc st0)))
                    input h st) as (context & _ & Hrun)
    end.
    rewrite Hrun. right. exists (EvFallback context input).
    split; [right; now exists context|reflexivity].
Qed.

Lemma X11_interpret_makes_one_call_at_most_witness :
  let st0 := initial_state bd_missing in
  let line := beads_line SAMPLE_TEXT SAMPLE_CONTEXT 0 1 in
  let st1 := after_parse st0 SAMPLE_CONTEXT in
  let st := with_fallback {| enabled := true;
                             fallback_handler := Some (failing_handler "down") |}
                          st1 in
  Beads.parse SAMPLE_TEXT st0 = (Normal (Some line), st1) /\
  at_most_one_call
    (fun ev => is_bd_call ev \/ is_fallback_call "why did this happen" ev)
    st (snd (Interpreter.interpret line "why did this happen" st)).
Proof.
  intros st0 line st1 st. split; [reflexivity|].
  apply (@X11_interpret_makes_one_call_at_most
           SAMPLE_TEXT st0 line st1 "why did this happen" st).
  reflexivity.
Defined.

(** X12. When a query on a parsed beads line matches no command and the
    fallback is enabled with a handler, the handler is called once, with
    the query exactly as typed (not trimmed, not lower-cased) and a
    context text that begins with the line's type [beads], timestamp,
    event code and entity id and ends with the list of the seven
    commands. *)
Theorem X12_fallback_receives_line_context (rawLine : string) (st0 : State)
  (line : ActionableLogLine) (st1 : State) (input token : string)
  (h : list Event -> string -> string -> Settled Thrown) (st : State) :
  Beads.parse rawLine st0 = (Normal (Some line), st1) ->
  sources st (source line) = sources st1 (source line) ->
  hd_error (split_ws (toLowerCase (trim input))) = Some token ->
  find (answers_to token) (availableCommands line) = None ->
  enabled (fallbackConfig st) = true ->
  fallback_handler (fallbackConfig st) = Some h ->
  exists entries,
    trace (snd (Interpreter.interpret line input st))
    = trace st
      ++ [EvFallback
            ("Log line context:" ++ Interpreter.NL
             ++ "- Type: beads" ++ Interpreter.NL
             ++ "- Timestamp: " ++ timestamp line ++ Interpreter.NL
             ++ "- Message: " ++ message line ++ Interpreter.NL
             ++ "- ID: " ++ src_id (sources st1 (source line))
             ++ Interpreter.NL
             ++ entries ++ Interpreter.NL
             ++ "Available commands: show (Show issue details), related (Show related events), deps (Show issue dependencies), category (Filter by event category), session (Show events from this session), before (Show events before this timestamp), after (Show events after this timestamp)")
            input].
Proof.
  intros Hparse Hsrc Htoken Hnone Hen Hh. apply parse_returns in Hparse.
  destruct Hparse as (c & -> & -> & Hid & _).
  destruct (parsed_line_objects rawLine c st0 Hid) as [Hobj _].
  cbv zeta in Hobj. rewrite Hobj in *. clear Hobj.
  cbn [availableCommands beads_line source timestamp message src_id] in *.
  assert (Hq : Beads.line_handleQuery
                 (Beads.createBeadsCommands (next_loc st0)) input st
               = (Normal (unknown_command token), st)).
  { unfold Beads.line_handleQuery. cbv zeta.
    destruct (split_ws (toLowerCase (trim input))) as [|t rest]; [discriminate|].
    injection Htoken as ->. cbn [hd_error tl].
    rewrite find_command_is_find, Hnone. reflexivity. }
  rewrite interpret_steps. cbn [handleQuery beads_line]. rewrite Hq.
  cbn [handled unknown_command]. rewrite Hen, Hh.
  exists (String.concat "" (map Interpreter.context_entry
                              (contexts st (next_loc st0)))).
  unfold Interpreter.formatContextForClaude, Interpreter.call_handler,
    read_source, read_context, try_catch, bind, gets, ret.
  cbn [source timestamp message availableCommands beads_line]. rewrite Hsrc.
  cbn [src_type src_id src_context].
  destruct (h _ _ input) as [response|[e|k]];
    cbn [snd trace record_event caught]; do 3 f_equal;
    rewrite !append_assoc; reflexivity.
Qed.

Lemma X12_fallback_receives_line_context_witness :
  let st0 := initial_state bd_echo in
  let line := beads_line SAMPLE_TEXT SAMPLE_CONTEXT 0 1 in
  let st1 := after_parse st0 SAMPLE_CONTEXT in
  let st := with_fallback {| enabled := true;
                             fallback_handler := Some (constant_handler "resp") |}
                          st1 in
  Beads.parse SAMPLE_TEXT st0 = (Normal (Some line), st1) /\
  exists entries,
    trace (snd (Interpreter.interpret line " Explain THIS " st))
    = trace st
      ++ [EvFallback
            ("Log line context:" ++ Interpreter.NL
             ++ "- Type: beads" ++ Interpreter.NL
             ++ "- Timestamp: " ++ timestamp line ++ Interpreter.NL
             ++ "- Message: " ++ message line ++ Interpreter.NL
             ++ "- ID: " ++ src_id (sources st1 (source line))
             ++ Interpreter.NL
             ++ entries ++ Interpreter.NL
             ++ "Available commands: show (Show issue details), related (Show related events), deps (Show issue dependencies), category (Filter by event category), session (Show events from this session), before (Show events before this timestamp), after (Show events after this timestamp)")
            " Explain THIS "].
Proof.
  intros st0 line st1 st. split; [reflexivity|].
  apply (@X12_fallback_receives_line_context
           SAMPLE_TEXT st0 line st1 " Explain THIS " "explain"
           (constant_handler "resp") st); reflexivity.
Defined.

(* ================================================================== *)
(** * The natural-language test of the interpreter *)
(* ================================================================== *)

Lemma trimEnd_idempotent (s : string) : trimEnd (trimEnd s) = trimEnd s.
Proof.
  induction s as [|c s IH]; [reflexivity|]. cbn [trimEnd].
  destruct (trimEnd s) as [|d t] eqn:E.
  - destruct (is_space c) eqn:Hc; [reflexivity|]. cbn [trimEnd]. now rewrite Hc.
  - change (trimEnd (String c (String d t))) with
      (match trimEnd (String d t) with
       | EmptyString => if is_space c then EmptyString else String c EmptyString
       | u => String c u
       end).
    now rewrite IH.
Qed.

Lemma trimStart_head (s : string) :
  match trimStart s with
  | EmptyString => True
  | String c _ => is_space c = false
  end.
Proof.
  induction s as [|c s IH]; simpl; [exact I|].
  destruct (is_space c) eqn:Hc; [exact IH|exact Hc].
Qed.

Lemma trim_idempotent (s : string) : trim (trim s) = trim s.
Proof.
  unfold trim. pose proof (trimStart_head s) as Hhead.
  destruct (trimStart s) as [|c t]; [reflexivity|].
  assert (E : trimStart (trimEnd (String c t)) = trimEnd (String c t)).
  { cbn [trimEnd]. destruct (trimEnd t); [rewrite Hhead|]; simpl;
      now rewrite Hhead. }
  now rewrite E, trimEnd_idempotent.
Qed.

Lemma trimStart_app_mark (c : ascii) (s : string) :
  is_space c = false ->
  trimStart (s ++ String c "") = (trimStart s ++ String c "")%string.
Proof.
  intros Hc. induction s as [|d s IH]; simpl; [now rewrite Hc|].
  destruct (is_space d); [exact IH|reflexivity].
Qed.

Lemma trimEnd_app_mark (c : ascii) (s : string) :
  is_space c = false ->
  trimEnd (s ++ String c "") = (s ++ String c "")%string.
Proof.
  intros Hc. induction s as [|d s IH]; simpl; [now rewrite Hc|].
  rewrite IH. destruct s; reflexivity.
Qed.

Lemma ends_with_char_app (c : ascii) (s : string) :
  ends_with_char c (s ++ String c "") = true.
Proof.
  induction s as [|d s IH]; simpl; [apply Ascii.eqb_refl|].
  destruct s; exact IH.
Qed.

Lemma strip_prefix_spaceless (p t r : string) :
  spaceless t -> strip_prefix p t = Some r -> spaceless r.
Proof.
  unfold spaceless. revert t. induction p as [|c p IH]; intros t Ht; simpl.
  - now intros [= <-].
  - destruct t as [|d t]; [discriminate|].
    simpl in Ht. apply andb_true_iff in Ht. destruct Ht as [_ Ht].
    destruct (Ascii.eqb d c); [now apply IH|discriminate].
Qed.

Lemma word_then_space_spaceless (word t : string) :
  spaceless t -> Interpreter.word_then_space word t = false.
Proof.
  intros Ht. unfold Interpreter.word_then_space.
  destruct (strip_prefix word t) as [r|] eqn:E; [|reflexivity].
  apply (strip_prefix_spaceless _ Ht) in E. destruct r as [|c r]; [reflexivity|].
  unfold spaceless in E. simpl in E. apply andb_true_iff in E.
  destruct E as [E _]. now apply negb_true_iff in E.
Qed.

Lemma tell_me_spaceless (t : string) :
  spaceless t -> Interpreter.tell_me t = false.
Proof.
  intros Ht. unfold Interpreter.tell_me.
  destruct (strip_prefix "tell" t) as [r|] eqn:E; [|reflexivity].
  apply (strip_prefix_spaceless _ Ht) in E. destruct r as [|c r]; [reflexivity|].
  unfold spaceless in E. simpl in E. apply andb_true_iff in E.
  destruct E as [E _]. apply negb_true_iff in E. simpl. now rewrite E.
Qed.

(** X13. The natural-language test looks at the trimmed, lower-cased
    input only: lower-casing or trimming the input beforehand does not
    change its answer, and every input with a question mark appended is
    taken for natural language. *)
Theorem X13_isNaturalLanguage_normalises (input : string) :
  Interpreter.isNaturalLanguage (toLowerCase input)
  = Interpreter.isNaturalLanguage input
  /\ Interpreter.isNaturalLanguage (trim input)
     = Interpreter.isNaturalLanguage input
  /\ Interpreter.isNaturalLanguage (input ++ "?") = true.
Proof.
  unfold Interpreter.isNaturalLanguage. cbv zeta. split; [|split].
  - now rewrite toLowerCase_trim, toLowerCase_idempotent.
  - now rewrite trim_idempotent.
  - unfold trim. rewrite trimStart_app_mark, trimEnd_app_mark by reflexivity.
    rewrite toLowerCase_app.
    change (toLowerCase "?") with "?"%string. cbn [existsb].
    rewrite ends_with_char_app. cbn [orb]. now rewrite !orb_true_r.
Qed.

(** X14. An input that, once trimmed, holds no white space is taken for
    natural language only if, lower-cased, it starts with [explain] or
    [describe] or ends with a question mark: the question words and
    [tell me] need a white space after them. *)
Theorem X14_single_word_natural_language (input : string) :
  spaceless (trim input) ->
  Interpreter.isNaturalLanguage input
  = startsWith "explain" (toLowerCase (trim input))
    || startsWith "describe" (toLowerCase (trim input))
    || ends_with_char "?" (toLowerCase (trim input)).
Proof.
  intros Hs. apply spaceless_lower in Hs.
  unfold Interpreter.isNaturalLanguage. cbv zeta. cbn [existsb].
  rewrite !(word_then_space_spaceless _ Hs), (tell_me_spaceless Hs).
  cbn [orb]. now rewrite orb_false_r, orb_assoc.
Qed.

Lemma X14_single_word_natural_language_witness :
  spaceless (trim "  What  ") /\
  Interpreter.isNaturalLanguage "  What  "
  = startsWith "explain" (toLowerCase (trim "  What  "))
    || startsWith "describe" (toLowerCase (trim "  What  "))
    || ends_with_char "?" (toLowerCase (trim "  What  ")).
Proof.
  split; [reflexivity|].
  apply (@X14_single_word_natural_language "  What  "). reflexivity.
Defined.

(* ================================================================== *)
(** * More on the registry *)
(* ================================================================== *)

Lemma try_adapters_skips (rawLine : string) (before rest : list SourceAdapter)
  (st : State) :
  (forall b st', In b before ->
      adapter_parse b rawLine st' = (Normal None, st')) ->
  Registry.try_adapters (before ++ rest) rawLine st
  = Registry.try_adapters rest rawLine st.
Proof.
  intros Hnull. induction before as [|b before IH]; [reflexivity|].
  cbn [app Registry.try_adapters]. unfold bind at 1.
  rewrite Hnull by now left.
  apply IH. intros b' st' Hin. apply Hnull. now right.
Qed.

Lemma global_registry_fold (calls : list SourceAdapter)
  (g : option Registry.DefaultAdapterRegistry) :
  fst (Registry.getRegistry
         (fold_left (fun g adapter => snd (Registry.registerAdapter g adapter))
                    calls g))
  = fold_left (fun r adapter => snd (Registry.register r adapter)) calls
              (fst (Registry.getRegistry g)).
Proof.
  revert g. induction calls as [|adapter calls IH]; intros g; [reflexivity|].
  cbn [fold_left]. rewrite IH. f_equal. now destruct g.
Qed.

(** X15. [register] writes its warning exactly when an adapter of the
    same type was registered before, and it is then that the number of
    registered types stays the same; otherwise it grows by one. *)
Theorem X15_register_warns_when_replacing (calls : list SourceAdapter)
  (adapter : SourceAdapter) :
  let r := Registry.register_all calls in
  let known :=
    existsb (String.eqb (adapter_type adapter)) (map adapter_type calls) in
  fst (Registry.register r adapter)
  = (if known
     then ["Adapter '" ++ adapter_type adapter
             ++ "' already registered, replacing"]%string
     else []) /\
  length (Registry.types (snd (Registry.register r adapter)))
  = length (Registry.types r) + (if known then 0 else 1).
Proof.
  intros r known.
  pose proof (has_registered calls (adapter_type adapter)) as Hhas.
  fold r known in Hhas.
  unfold Registry.register, Registry.types. cbn [fst snd Registry.adapters].
  rewrite Hhas. split; [reflexivity|].
  destruct known.
  - rewrite keys_set_present by assumption. lia.
  - rewrite set_absent by assumption. unfold JsMap.keys.
    now rewrite map_app, length_app.
Qed.

(** X16. [get] returns [undefined] exactly for the types that no
    [register] call named, [types] lists exactly the types for which
    [get] returns an adapter, and the adapter returned is one that was
    registered and has the type asked for. *)
Theorem X16_get_undefined_iff_unregistered (calls : list SourceAdapter)
  (type : string) :
  let r := Registry.register_all calls in
  (Registry.get r type = None <-> ~ In type (map adapter_type calls)) /\
  (In type (Registry.types r) <-> Registry.get r type <> None) /\
  (forall adapter, Registry.get r type = Some adapter ->
     adapter_type adapter = type /\ In adapter calls).
Proof.
  intros r. destruct (registry_invariant calls) as (_ & Hkeys & Hget).
  fold r in Hkeys, Hget.
  assert (Hnone : Registry.get r type = None
                  <-> ~ In type (map adapter_type calls)).
  { unfold Registry.get. rewrite Hget. unfold last_registered. split.
    - intros Hfind Hin. apply in_map_iff in Hin.
      destruct Hin as (a & <- & Hin). apply in_rev in Hin.
      pose proof (find_none _ _ Hfind a Hin) as E. cbv beta in E.
      now rewrite String.eqb_refl in E.
    - intros Hnot.
      destruct (find _ (rev calls)) as [a|] eqn:Hfind; [|reflexivity].
      apply find_some in Hfind. destruct Hfind as [Hin E].
      apply String.eqb_eq in E. apply in_rev in Hin.
      exfalso. apply Hnot. rewrite <- E. now apply in_map. }
  split; [exact Hnone|]. split.
  - unfold Registry.types. rewrite Hkeys, in_first_registrations.
    destruct (in_dec string_dec type (map adapter_type calls)) as [Hin|Hnot].
    + split; [|trivial]. intros _ E. now apply Hnone in E.
    + split; [contradiction|]. intros Hne. exfalso. apply Hne.
      now apply Hnone.
  - intros adapter E. unfold Registry.get in E. rewrite Hget in E.
    split; [now apply last_registered_type in E|].
    apply find_some in E. destruct E as [Hin _]. now apply in_rev.
Qed.

(** X17. [parse] stops at the first adapter that does not return
    [null].  After any sequence of [register] calls, when the adapters
    that stand before an adapter in the trial order return [null] and it
    returns a line or throws, that is how [parse] completes, whatever
    adapters stand after it; an exception of an adapter is not caught,
    so a later adapter that would accept the line is not tried. *)
Theorem X17_parse_stops_at_first_answer (calls before after : list SourceAdapter)
  (adapter : SourceAdapter) (rawLine : string) (st st1 : State)
  (outcome : Completion (option ActionableLogLine)) :
  JsMap.values (Registry.adapters (Registry.register_all calls))
  = before ++ adapter :: after ->
  (forall b st', In b before ->
      adapter_parse b rawLine st' = (Normal None, st')) ->
  adapter_parse adapter rawLine st = (outcome, st1) ->
  outcome <> Normal None ->
  Registry.parse (Registry.register_all calls) rawLine st = (outcome, st1).
Proof.
  intros Htried Hnull Hrun Hanswer. unfold Registry.parse. rewrite Htried.
  rewrite try_adapters_skips by assumption.
  cbn [Registry.try_adapters]. unfold bind at 1. rewrite Hrun.
  destruct outcome as [[line|]|e]; [reflexivity|contradiction|reflexivity].
Qed.

Lemma X17_parse_stops_at_first_answer_witness :
  let e := {| err_stderr := None; err_message := Some "boom" |} in
  let calls := [null_adapter "format-a" "A"; null_adapter "format-b" "B";
                Beads.BeadsAdapter; throwing_adapter "format-b" e] in
  JsMap.values (Registry.adapters (Registry.register_all calls))
  = [null_adapter "format-a" "A"] ++ throwing_adapter "format-b" e
      :: [Beads.BeadsAdapter] /\
  Beads.parse SAMPLE_TEXT (initial_state bd_echo)
  = (Normal (Some (beads_line SAMPLE_TEXT SAMPLE_CONTEXT 0 1)),
     after_parse (initial_state bd_echo) SAMPLE_CONTEXT) /\
  Registry.parse (Registry.register_all calls) SAMPLE_TEXT
    (initial_state bd_echo)
  = (Throw (ThrownObject e), initial_state bd_echo).
Proof.
  intros e calls. split; [reflexivity|]. split; [reflexivity|].
  apply (@X17_parse_stops_at_first_answer calls
           [null_adapter "format-a" "A"] [Beads.BeadsAdapter]
           (throwing_adapter "format-b" e) SAMPLE_TEXT
           (initial_state bd_echo) (initial_state bd_echo)
           (Throw (ThrownObject e))).
  - reflexivity.
  - intros b st' [<-|[]]. reflexivity.
  - reflexivity.
  - discriminate.
Defined.

(** X18. The module-level functions work on one registry: after any
    sequence of [registerAdapter] calls on a fresh module, [getRegistry]
    returns the registry that the same sequence of [register] calls
    builds, it returns the same registry when called again, and a first
    [getRegistry] without any registration gives an empty registry. *)
Theorem X18_global_registry_is_shared (calls : list SourceAdapter) :
  let g := fold_left
             (fun g adapter => snd (Registry.registerAdapter g adapter))
             calls None in
  fst (Registry.getRegistry g) = Registry.register_all calls /\
  Registry.getRegistry (snd (Registry.getRegistry g))
  = Registry.getRegistry g /\
  Registry.types (fst (Registry.getRegistry None)) = [].
Proof.
  intros g. split; [apply global_registry_fold|].
  split; [now destruct g|reflexivity].
Qed.

(* ================================================================== *)
(** * The default expansion of a parsed line *)
(* ================================================================== *)


(** A category that is no entry of the table but a member inherited from
    [Object.prototype] is described by the text of that member; any other
    unknown category by [Unknown]. *)
Example inherited_category_descriptions :
  Beads.category_description "toString"
  = "function toString() { [native code] }" /\
  Beads.category_description "constructor"
  = "function Object() { [native code] }" /\
  Beads.category_description "xx" = "Unknown".
Proof. repeat split. Qed.




(* ================================================================== *)
(** * The panel over the activated registry *)
(* ================================================================== *)

(** With the beads adapter alone registered, the registry parses like
    the adapter. *)
Lemma activated_parse (rawLine : string) (st : State) :
  Registry.parse ACTIVATED_REGISTRY rawLine st = Beads.parse rawLine st.
Proof.
  change (Registry.parse ACTIVATED_REGISTRY rawLine st)
    with (bind (Beads.parse rawLine)
            (fun result => match result with
                           | Some line => ret (Some line)
                           | None => ret None
                           end) st).
  unfold bind. now destruct (Beads.parse rawLine st) as [[[line|]|e] st1].
Qed.

(** The default expansion of a line right after its [parse]. *)
Lemma expansion_after_parse (c : Beads.BeadsContext) (st0 : State) :
  exists expansion,
    Beads.line_getDefaultExpansion (next_loc st0) (after_parse st0 c)
    = (Normal expansion, after_parse st0 c) /\
    expansion_data expansion = Some (next_loc st0).
Proof.
  unfold Beads.line_getDefaultExpansion, read_context, bind, gets.
  cbn [after_parse contexts]. rewrite update_same.
  unfold Beads.context_object. cbn [prop String.eqb Ascii.eqb Bool.eqb].
  unfold Beads.receiver, ret.
  destruct (Beads.parseEventCode (Beads.ctx_eventCode c)) as [category action].
  eexists. split; reflexivity.
Qed.

(** X19. In the activated extension, where the beads adapter is the one
    registered, [addLogLine] completes normally for every string and
    posts one [logLine] message with the string as [raw], running no
    process: [parsed] is [null] when the string violates the grammar,
    and otherwise it holds the first two fields as timestamp and message,
    the source type [beads], and as source id the third field, or [none]
    when that field is empty. *)
Theorem X19_addLogLine_posts_summary (rawLine : string) (p : Panel.AllpPanel)
  (st : State) :
  exists parsed st1,
    Panel.addLogLine ACTIVATED_REGISTRY rawLine p st
    = (Normal tt, Panel.postMessage p (Panel.LogLineMessage rawLine parsed),
       st1) /\
    trace st1 = trace st /\
    (violates_grammar rawLine -> parsed = None /\ st1 = st) /\
    (~ violates_grammar rawLine ->
     parsed = Some (beads_summary (field 0 rawLine) (field 1 rawLine)
                                  (field 2 rawLine))).
Proof.
  unfold Panel.addLogLine. rewrite activated_parse.
  pose proof (parse_null_iff rawLine st) as Hnull.
  destruct (parse_cases rawLine st) as [E | (ts & ec & id & ag & se & de & E)].
  - rewrite E in *. exists None, st. split; [reflexivity|].
    split; [reflexivity|]. split; [easy|].
    intros Hok. contradiction Hok. now apply Hnull.
  - cbv zeta in E. destruct E as (_ & Hsplit & _ & _ & _ & E).
    rewrite E in *. cbn [fst] in Hnull.
    eexists _, _. split; [reflexivity|]. split; [reflexivity|].
    split; [intros V; apply Hnull in V; discriminate|]. intros _.
    unfold field. rewrite Hsplit.
    cbn [nth beads_line source timestamp message after_parse sources
           Beads.ctx_timestamp Beads.ctx_eventCode Beads.ctx_issueId].
    rewrite update_same. cbn [src_type src_id]. unfold beads_summary.
    do 2 f_equal. rewrite or_else_none.
    apply or_else_nonempty. now destruct (String.eqb_spec id "").
Qed.

(** X20. In the activated extension, selecting a string that violates
    the grammar posts the message [Unable to parse log line] with no
    suggestions and leaves the selection, and the process, as they were:
    later queries still go to the line selected before.  Selecting any
    other string parses it, makes the new line the selection and posts
    what [getDefaultExpansion] of that line returns, which completes
    normally and changes nothing; the data of the expansion is the
    context object of the line, and no process is run. *)
Theorem X20_selection_follows_parse (lineIndex : nat) (rawLine : string)
  (p : Panel.AllpPanel) (st : State) :
  (violates_grammar rawLine ->
   Panel.handleLineSelect ACTIVATED_REGISTRY lineIndex rawLine p st
   = (Normal tt,
      {| Panel.selectedLine := Panel.selectedLine p;
         Panel.posted :=
           Panel.posted p
           ++ [Panel.ExpansionMessage
                 {| expansion_content := "Unable to parse log line";
                    expansion_data := None;
                    suggestions := Some [] |}] |},
      st)) /\
  (~ violates_grammar rawLine ->
   exists line st1 expansion,
     Beads.parse rawLine st = (Normal (Some line), st1) /\
     getDefaultExpansion line st1 = (Normal expansion, st1) /\
     Panel.handleLineSelect ACTIVATED_REGISTRY lineIndex rawLine p st
     = (Normal tt,
        {| Panel.selectedLine := Some line;
           Panel.posted := Panel.posted p ++ [Panel.ExpansionMessage expansion] |},
        st1) /\
     expansion_data expansion = Some (src_context (sources st1 (source line))) /\
     trace st1 = trace st).
Proof.
  unfold Panel.handleLineSelect. rewrite activated_parse.
  pose proof (parse_null_iff rawLine st) as Hnull.
  destruct (parse_cases rawLine st) as [E | (ts & ec & id & ag & se & de & E)].
  - rewrite E in *. split; [reflexivity|].
    intros Hok. contradiction Hok. now apply Hnull.
  - cbv zeta in E. destruct E as (_ & _ & _ & _ & _ & E).
    rewrite E in *. cbn [fst] in Hnull.
    split; [intros V; apply Hnull in V; discriminate|]. intros _.
    match goal with
    | |- context [after_parse st ?c] =>
        destruct (expansion_after_parse c st) as (expansion & Hexp & Hdata)
    end.
    eexists _, _, expansion. split; [reflexivity|].
    cbn [getDefaultExpansion beads_line]. rewrite Hexp.
    split; [reflexivity|]. split; [reflexivity|]. split; [|reflexivity].
    rewrite Hdata. cbn [source beads_line after_parse sources].
    now rewrite update_same.
Qed.

(** X21. When the selected line is one that [BeadsAdapter.parse]
    returned, the panel's [handleQuery] posts one [queryResult] message
    with what [interpret] returned, and its error flag is set exactly
    when the result is not handled: an unhandled result always carries
    an error message and a handled one never does.  When [interpret]
    throws, nothing is posted. *)
Theorem X21_panel_flags_unhandled_queries (rawLine : string) (st0 : State)
  (line : ActionableLogLine) (st1 : State) (p : Panel.AllpPanel)
  (input : string) (st : State) :
  Beads.parse rawLine st0 = (Normal (Some line), st1) ->
  Panel.selectedLine p = Some line ->
  match Interpreter.interpret line input st with
  | (Normal result, st') =>
      Panel.handleQuery input p st
      = (Normal tt,
         Panel.postMessage p
           (Panel.QueryResultMessage (content result) (negb (handled result))
              (error result)),
         st') /\
      (handled result = true <-> error result = None)
  | (Throw e, st') => Panel.handleQuery input p st = (Throw e, p, st')
  end.
Proof.
  intros Hparse Hsel. apply parse_returns in Hparse.
  destruct Hparse as (c & -> & _).
  unfold Panel.handleQuery. rewrite Hsel.
  assert (Hshape : forall result st',
             Interpreter.interpret
               (beads_line rawLine c (next_loc st0) (S (next_loc st0)))
               input st = (Normal result, st') ->
             (handled result = true /\ error result = None) \/
             (handled result = false /\ truthy_opt (error result) = true)).
  { intros result st' E. rewrite interpret_steps in E.
    cbn [handleQuery beads_line] in E.
    destruct (beads_handleQuery_cases (next_loc st0) input)
      as [(cmd & params & Hin & Hq) | (token & _ & _ & Hq)];
      cbv zeta in Hq; rewrite Hq in E.
    - destruct (beads_handler_calls (Some params) Hin) as [_ Hh].
      destruct (handler cmd (Some params) st) as [[r|e] st2] eqn:Er;
        [|discriminate].
      destruct (Hh _ _ _ Er) as [Hr He]. rewrite Hr in E.
      injection E as <- <-. now left.
    - unfold ret in E. cbn [handled unknown_command] in E.
      destruct (enabled (fallbackConfig st));
        [destruct (fallback_handler (fallbackConfig st)) as [h|]|];
        try (injection E as <- <-; right; split; reflexivity).
      destruct (fallback_branch
                  (beads_line rawLine c (next_loc st0) (S (next_loc st0)))
                  input h st) as (context & _ & Hrun).
      unfold ret in Hrun. rewrite Hrun in E.
      destruct (h (trace st) context input) as [response|[e|k]];
        [ injection E as <- <-; left; split; reflexivity
        | injection E as <- <-; right; split; reflexivity
        | discriminate E ]. }
  destruct (Interpreter.interpret _ input st) as [[result|e] st'];
    [|reflexivity].
  destruct (Hshape _ _ eq_refl) as [[Hh He] | [Hh He]]; rewrite Hh, ?He.
  - split; [reflexivity|]. split; trivial.
  - cbn [negb andb]. split; [reflexivity|].
    split; [discriminate|]. intros Hnone. rewrite Hnone in He. discriminate.
Qed.

Lemma X21_panel_flags_unhandled_queries_witness :
  let st0 := initial_state bd_missing in
  let line := beads_line SAMPLE_TEXT SAMPLE_CONTEXT 0 1 in
  let st1 := after_parse st0 SAMPLE_CONTEXT in
  let p := {| Panel.selectedLine := Some line; Panel.posted := [] |} in
  Beads.parse SAMPLE_TEXT st0 = (Normal (Some line), st1) /\
  Panel.selectedLine p = Some line /\
  match Interpreter.interpret line "frobnicate" st1 with
  | (Normal result, st') =>
      Panel.handleQuery "frobnicate" p st1
      = (Normal tt,
         Panel.postMessage p
           (Panel.QueryResultMessage (content result) (negb (handled result))
              (error result)),
         st') /\
      (handled result = true <-> error result = None)
  | (Throw e, st') => Panel.handleQuery "frobnicate" p st1 = (Throw e, p, st')
  end.
Proof.
  intros st0 line st1 p. split; [reflexivity|]. split; [reflexivity|].
  apply (@X21_panel_flags_unhandled_queries
           SAMPLE_TEXT st0 line st1 p "frobnicate" st1); reflexivity.
Defined.

(* ================================================================== *)
(** * The two tokenisers *)
(* ================================================================== *)

Lemma word_spaceless (w : string) : all is_word w = true -> spaceless w.
Proof.
  unfold spaceless. induction w as [|c w IH]; simpl; [reflexivity|].
  intros H. apply andb_true_iff in H. destruct H as [Hc Hw].
  rewrite (IH Hw), andb_true_r.
  destruct (is_space c) eqn:Hs; [|reflexivity].
  apply space_is_not_word in Hs. congruence.
Qed.

(** X22. [parseCommand] and the dispatch of a beads line read the same
    command: whenever [parseCommand] accepts an input, the command it
    returns is the token that [handleQuery] looks up, the first piece of
    the trimmed, lower-cased input split at white space, and it is not
    empty. *)
Theorem X22_parseCommand_reads_dispatch_token (input : string)
  (parsed : Interpreter.ParsedCommand) :
  Interpreter.parseCommand input = Some parsed ->
  hd_error (split_ws (toLowerCase (trim input)))
  = Some (Interpreter.command parsed)
  /\ Interpreter.command parsed <> "".
Proof.
  intros H. unfold Interpreter.parseCommand in H. cbv zeta in H.
  destruct (truthy (trim input)); cbn [negb] in H; [|discriminate].
  destruct (Interpreter.match_command (trim input)) as [[m1 m2]|] eqn:E;
    [|discriminate].
  injection H as <-. cbn [Interpreter.command].
  apply match_command_form in E. destruct E as (Hne & Hword & Hform).
  pose proof (spaceless_lower (word_spaceless m1 Hword)) as Hsp.
  split; [|now apply toLowerCase_nonempty].
  destruct m2 as [r|].
  - destruct Hform as (blanks & Hb & Hblank & _ & ->).
    rewrite toLowerCase_app. unfold split_ws.
    rewrite split_ws_from_token by exact Hsp.
    destruct blanks as [|b blanks]; [congruence|].
    simpl in Hblank. apply andb_true_iff in Hblank. destruct Hblank as [Hbs _].
    cbn [append toLowerCase split_ws_from]. rewrite lower_char_space, Hbs.
    reflexivity.
  - rewrite Hform. unfold split_ws.
    rewrite split_ws_from_spaceless;
      [reflexivity|exact Hsp|now apply toLowerCase_nonempty].
Qed.

Lemma X22_parseCommand_reads_dispatch_token_witness :
  Interpreter.parseCommand "  Show   BD-1 now "
  = Some {| Interpreter.command := "show"; Interpreter.params := "BD-1 now" |}
  /\ hd_error (split_ws (toLowerCase (trim "  Show   BD-1 now "))) = Some "show"
  /\ "show"%string <> ""%string.
Proof.
  split; [reflexivity|].
  exact (@X22_parseCommand_reads_dispatch_token "  Show   BD-1 now "
           {| Interpreter.command := "show"; Interpreter.params := "BD-1 now" |}
           eq_refl).
Defined.

(* ================================================================== *)
(** * The remaining commands of a beads line *)
(* ================================================================== *)

(** X23. On a parsed beads line, [session] runs
    [bd log --session <fifth field>], or answers [No session ID available]
    without running anything when that field is empty; [before] and
    [after] run [bd log --until <first field> --last 20] and
    [bd log --since <first field> --last 20].  What is typed after the
    command name is ignored by all three. *)
Theorem X23_session_before_after (rawLine : string) (st0 : State)
  (line : ActionableLogLine) (st1 : State) (rest : string) (st : State) :
  Beads.parse rawLine st0 = (Normal (Some line), st1) ->
  contexts st (src_context (sources st1 (source line)))
  = contexts st1 (src_context (sources st1 (source line))) ->
  starts_blank rest ->
  handleQuery line ("session" ++ rest) st
  = (if String.eqb (field 4 rawLine) ""
     then (Normal (Beads.handled_with "No session ID available"), st)
     else bd_run st ("bd log --session " ++ field 4 rawLine)) /\
  handleQuery line ("before" ++ rest) st
  = bd_run st ("bd log --until " ++ field 0 rawLine ++ " --last 20") /\
  handleQuery line ("after" ++ rest) st
  = bd_run st ("bd log --since " ++ field 0 rawLine ++ " --last 20").
Proof.
  intros H Hctx Hrest.
  destruct (parse_cases rawLine st0) as [E | (ts & ec & id & ag & se & de & E)].
  { rewrite E in H. discriminate. }
  cbv zeta in E. destruct E as (_ & Hsplit & _ & _ & _ & E).
  rewrite E in H. injection H as <- <-.
  cbn [source beads_line after_parse sources contexts handleQuery] in *.
  rewrite !update_same in *. cbn [src_context] in *.
  rewrite ?update_same in *.
  unfold field. rewrite Hsplit. cbn [nth].
  destruct (query_pieces rest Hrest) as (tail & Hpieces).
  unfold Beads.line_handleQuery. cbv zeta.
  rewrite !Hpieces by (discriminate || reflexivity).
  lower_literals. dispatch_command.
  split; [|split]; read_parsed_context Hctx;
    cbn [Beads.ctx_timestamp Beads.ctx_sessionId].
  - rewrite or_else_empty. unfold truthy.
    destruct (String.eqb se ""); cbn [negb]; [reflexivity|].
    now rewrite run_and_show.
  - now rewrite run_and_show.
  - now rewrite run_and_show.
Qed.

Lemma X23_session_before_after_witness :
  let st0 := initial_state bd_echo in
  let line := beads_line SAMPLE_TEXT SAMPLE_CONTEXT 0 1 in
  let st1 := after_parse st0 SAMPLE_CONTEXT in
  Beads.parse SAMPLE_TEXT st0 = (Normal (Some line), st1) /\
  handleQuery line ("session" ++ " of today") st1
  = (if String.eqb (field 4 SAMPLE_TEXT) ""
     then (Normal (Beads.handled_with "No session ID available"), st1)
     else bd_run st1 ("bd log --session " ++ field 4 SAMPLE_TEXT)) /\
  handleQuery line ("before" ++ " of today") st1
  = bd_run st1 ("bd log --until " ++ field 0 SAMPLE_TEXT ++ " --last 20") /\
  handleQuery line ("after" ++ " of today") st1
  = bd_run st1 ("bd log --since " ++ field 0 SAMPLE_TEXT ++ " --last 20").
Proof.
  intros st0 line st1. split; [reflexivity|].
  apply (@X23_session_before_after SAMPLE_TEXT st0 line st1 " of today" st1);
    reflexivity.
Defined.

(** X24. [BeadsAdapter.getCommands] completes normally in every state and
    runs no process.  The template commands it returns have the names,
    aliases and descriptions of the commands of every parsed line, but
    they are bound to an empty context: their [show], [deps] and
    [session] handlers answer with the informational messages and run
    nothing. *)
Theorem X24_template_commands (st : State) :
  exists commands st',
    getCommands Beads.BeadsAdapter st = (Normal commands, st') /\
    trace st' = trace st /\
    (forall context : loc,
        map (fun cmd => (name cmd, aliases cmd, description cmd)) commands
        = map (fun cmd => (name cmd, aliases cmd, description cmd))
              (Beads.createBeadsCommands context)) /\
    (forall cmd params,
        In cmd commands ->
        (name cmd = "show" \/ name cmd = "deps" ->
         handler cmd params st'
         = (Normal (Beads.handled_with "No issue associated with this event"),
            st')) /\
        (name cmd = "session" ->
         handler cmd params st'
         = (Normal (Beads.handled_with "No session ID available"), st'))).
Proof.
  eexists _, _. split; [reflexivity|]. split; [reflexivity|].
  split; [reflexivity|].
  intros cmd params Hin. unfold Beads.createBeadsCommands in Hin.
  repeat (destruct Hin as [<- | Hin]); try contradiction; cbn [name handler];
    (split; [intros [F|F]; try discriminate F | intros F; try discriminate F]);
    unfold read_context, gets, bind; cbn [contexts];
    rewrite update_same; reflexivity.
Qed.
